(** * tax_watch.py: polling, deduplication and notification pipeline

    A shallow embedding of [src/tax_watch.py].  Python text ([str]) is a
    list of Unicode code points, the SHA-256 digest behind [make_id] is
    computed, and the network, the clock, the HTML/feed parsers and the
    state file are explicit: the libraries the script calls are fields of
    a [runtime] record, and every call that touches the outside world is
    recorded in a log. *)

From Stdlib Require Import NArith ZArith List String Ascii Lia Bool.
From stdpp Require Import gmap.
Import ListNotations.

Local Open Scope N_scope.

(** ** Python text *)

Module Py.

(** A [str] is a sequence of code points ([0 .. 0x10FFFF]); [bytes] is a
    sequence of octets. *)
Definition str := list N.
Definition bytes := list N.

(** Code points of a literal written in this file (the file is UTF-8, a
    Rocq string literal is its byte sequence). *)
Fixpoint octets (s : string) : bytes :=
  match s with
  | EmptyString => []
  | String a r => N_of_ascii a :: octets r
  end.

Fixpoint utf8_decode (bs : bytes) : str :=
  match bs with
  | [] => []
  | b0 :: r0 =>
    if b0 <? 0x80 then b0 :: utf8_decode r0
    else match r0 with
    | [] => [b0]
    | b1 :: r1 =>
      if b0 <? 0xE0 then ((b0 mod 0x20) * 64 + b1 mod 64) :: utf8_decode r1
      else match r1 with
      | [] => [b0; b1]
      | b2 :: r2 =>
        if b0 <? 0xF0
        then ((b0 mod 0x10) * 4096 + (b1 mod 64) * 64 + b2 mod 64) :: utf8_decode r2
        else match r2 with
        | [] => [b0; b1; b2]
        | b3 :: r3 =>
          ((b0 mod 8) * 262144 + (b1 mod 64) * 4096 + (b2 mod 64) * 64 + b3 mod 64)
            :: utf8_decode r3
        end
      end
    end
  end.

Definition lit (s : string) : str := utf8_decode (octets s).

(** [s.encode("utf-8")]: strict, so a surrogate code point raises
    UnicodeEncodeError ([None]). *)
Definition encode_cp (c : N) : option bytes :=
  if c <? 0x80 then Some [c]
  else if c <? 0x800 then Some [0xC0 + c / 64; 0x80 + c mod 64]
  else if c <? 0x10000 then
    if (0xD800 <=? c) && (c <=? 0xDFFF) then None
    else Some [0xE0 + c / 4096; 0x80 + (c / 64) mod 64; 0x80 + c mod 64]
  else if c <? 0x110000 then
    Some [0xF0 + c / 262144; 0x80 + (c / 4096) mod 64;
          0x80 + (c / 64) mod 64; 0x80 + c mod 64]
  else None.

Fixpoint encode_utf8 (s : str) : option bytes :=
  match s with
  | [] => Some []
  | c :: r =>
    match encode_cp c, encode_utf8 r with
    | Some b, Some br => Some (b ++ br)
    | _, _ => None
    end
  end.

(** [c.isspace()] (CPython's [_PyUnicode_IsWhitespace]). *)
Definition isspace (c : N) : bool :=
  ((0x09 <=? c) && (c <=? 0x0D)) || ((0x1C <=? c) && (c <=? 0x20))
  || (c =? 0x85) || (c =? 0xA0) || (c =? 0x1680)
  || ((0x2000 <=? c) && (c <=? 0x200A))
  || (c =? 0x2028) || (c =? 0x2029) || (c =? 0x202F) || (c =? 0x205F)
  || (c =? 0x3000).

Fixpoint lstrip_by (p : N -> bool) (s : str) : str :=
  match s with
  | [] => []
  | c :: r => if p c then lstrip_by p r else s
  end.

Definition rstrip_by (p : N -> bool) (s : str) : str :=
  rev (lstrip_by p (rev s)).

(** [s.lstrip()], [s.rstrip()], [s.strip()] and [s.rstrip('/')]. *)
Definition lstrip (s : str) : str := lstrip_by isspace s.
Definition rstrip (s : str) : str := rstrip_by isspace s.
Definition strip (s : str) : str := rstrip (lstrip s).
Definition rstrip_char (ch : N) (s : str) : str := rstrip_by (N.eqb ch) s.

(** [len(s)] as a Python int. *)
Definition len (s : str) : Z := Z.of_nat (length s).

(** Line boundaries of [str.splitlines]. *)
Definition LF : N := 0x0A.
Definition CR : N := 0x0D.

Definition is_linebreak (c : N) : bool :=
  ((0x0A <=? c) && (c <=? 0x0D)) || ((0x1C <=? c) && (c <=? 0x1E))
  || (c =? 0x85) || (c =? 0x2028) || (c =? 0x2029).

(** [s.splitlines()]: the line under construction is [cur]; a CR LF pair
    is one boundary; no empty last line after a final boundary. *)
Fixpoint splitlines_from (cur : str) (s : str) : list str :=
  match s with
  | [] => match cur with [] => [] | _ => [cur] end
  | c :: r =>
    if is_linebreak c then
      cur :: match r with
             | c' :: r' =>
               if (c =? CR) && (c' =? LF) then splitlines_from [] r'
               else splitlines_from [] r
             | [] => splitlines_from [] r
             end
    else splitlines_from (cur ++ [c]) r
  end.

Definition splitlines (s : str) : list str := splitlines_from [] s.

(** [sep.join(parts)]. *)
Fixpoint join (sep : str) (parts : list str) : str :=
  match parts with
  | [] => []
  | [p] => p
  | p :: r => p ++ sep ++ join sep r
  end.

(** [needle in hay] for strings. *)
Fixpoint is_prefix (p s : str) : bool :=
  match p, s with
  | [], _ => true
  | _ :: _, [] => false
  | a :: p', b :: s' => (a =? b) && is_prefix p' s'
  end.

Fixpoint contains (hay needle : str) : bool :=
  is_prefix needle hay ||
  match hay with
  | [] => false
  | _ :: r => contains r needle
  end.

(** [xs[:n]] for a Python int [n]: a negative bound counts from the end. *)
Definition slice_to {A} (n : Z) (xs : list A) : list A :=
  if (0 <=? n)%Z then firstn (Z.to_nat n) xs
  else firstn (length xs - Z.to_nat (- n))%nat xs.

(** [str(i)] for a positive loop counter. *)
Definition digit (d : N) : N := 0x30 + d.

Fixpoint decimal_fuel (fuel : nat) (n : N) (acc : str) : str :=
  match fuel with
  | O => acc
  | S f =>
    let acc' := digit (n mod 10) :: acc in
    if n <? 10 then acc' else decimal_fuel f (n / 10) acc'
  end.

Definition str_of_nat (n : nat) : str :=
  decimal_fuel (S n) (N.of_nat n) [].

End Py.

Import Py.

(** ** SHA-256 (hashlib.sha256), on 32-bit words held in [N] *)

Module Sha256.

Definition w32 (x : N) : N := x mod 0x100000000.
Definition add32 (x y : N) : N := w32 (x + y).
Definition not32 (x : N) : N := N.lxor x 0xFFFFFFFF.
Definition rotr (n x : N) : N :=
  N.lor (N.shiftr x n) (w32 (N.shiftl x (32 - n))).

Definition Ch (x y z : N) : N := N.lxor (N.land x y) (N.land (not32 x) z).
Definition Maj (x y z : N) : N :=
  N.lxor (N.lxor (N.land x y) (N.land x z)) (N.land y z).
Definition Sigma0 (x : N) : N := N.lxor (N.lxor (rotr 2 x) (rotr 13 x)) (rotr 22 x).
Definition Sigma1 (x : N) : N := N.lxor (N.lxor (rotr 6 x) (rotr 11 x)) (rotr 25 x).
Definition sigma0 (x : N) : N := N.lxor (N.lxor (rotr 7 x) (rotr 18 x)) (N.shiftr x 3).
Definition sigma1 (x : N) : N := N.lxor (N.lxor (rotr 17 x) (rotr 19 x)) (N.shiftr x 10).

(** The round constants are the first 32 bits of the fractional parts
    of the cube roots of the first 64 primes, the initial state those of
    the square roots of the first 8. *)
Definition is_prime (n : N) : bool :=
  (1 <? n) &&
  forallb (fun d => negb (n mod N.of_nat d =? 0)) (seq 2 (N.to_nat n - 2)).

Definition primes : list N :=
  List.filter is_prime (map N.of_nat (seq 2 310)).

(** Largest [x] below [2^k] above the start value with [x^3 <= n]. *)
Fixpoint cube_root (k : nat) (n x : N) : N :=
  match k with
  | O => x
  | S k' =>
    let y := x + 2 ^ N.of_nat k' in
    cube_root k' n (if y * y * y <=? n then y else x)
  end.

Definition K : list N := Eval vm_compute in
  map (fun p => w32 (cube_root 36 (p * 2 ^ 96) 0)) primes.

Record regs := Regs { ra : N; rb : N; rc : N; rd : N; re : N; rf : N; rg : N; rh : N }.

Definition H0 : regs := Eval vm_compute in
  match map (fun p => w32 (N.sqrt (p * 2 ^ 64))) primes with
  | a :: b :: c :: d :: e :: f :: g :: h :: _ => Regs a b c d e f g h
  | _ => Regs 0 0 0 0 0 0 0 0
  end.

(** Padding: 0x80, zeros up to 56 mod 64, then the bit length on 64 bits. *)
Fixpoint be_bytes (k : nat) (x : N) : bytes :=
  match k with
  | O => []
  | S k' => be_bytes k' (x / 256) ++ [x mod 256]
  end.

Definition pad (m : bytes) : bytes :=
  let l := length m in
  let z := ((64 - (l + 9) mod 64) mod 64)%nat in
  m ++ [0x80] ++ repeat 0 z ++ be_bytes 8 (8 * N.of_nat l).

Fixpoint words (n : nat) (bs : bytes) : list N :=
  match n, bs with
  | S n', b0 :: b1 :: b2 :: b3 :: r =>
    (((b0 * 256 + b1) * 256 + b2) * 256 + b3) :: words n' r
  | _, _ => []
  end.

(** Message schedule: [w] holds the words so far, newest first. *)
Fixpoint schedule (n : nat) (w : list N) : list N :=
  match n with
  | O => w
  | S n' =>
    let x := add32 (add32 (sigma1 (nth 1 w 0)) (nth 6 w 0))
                   (add32 (sigma0 (nth 14 w 0)) (nth 15 w 0)) in
    schedule n' (x :: w)
  end.

Definition round (r : regs) (kw : N * N) : regs :=
  let '(k, w) := kw in
  let t1 := add32 (add32 (add32 (add32 (rh r) (Sigma1 (re r))) (Ch (re r) (rf r) (rg r))) k) w in
  let t2 := add32 (Sigma0 (ra r)) (Maj (ra r) (rb r) (rc r)) in
  Regs (add32 t1 t2) (ra r) (rb r) (rc r) (add32 (rd r) t1) (re r) (rf r) (rg r).

Definition compress (h : regs) (block : bytes) : regs :=
  let w := rev (schedule 48 (rev (words 16 block))) in
  let r := fold_left round (combine K w) h in
  Regs (add32 (ra h) (ra r)) (add32 (rb h) (rb r)) (add32 (rc h) (rc r)) (add32 (rd h) (rd r))
       (add32 (re h) (re r)) (add32 (rf h) (rf r)) (add32 (rg h) (rg r)) (add32 (rh h) (rh r)).

Fixpoint blocks (n : nat) (h : regs) (bs : bytes) : regs :=
  match n with
  | O => h
  | S n' => blocks n' (compress h (firstn 64 bs)) (skipn 64 bs)
  end.

Definition digest (m : bytes) : regs :=
  let p := pad m in blocks (length p / 64) H0 p.

Definition hexdigit (d : N) : N := if d <? 10 then 0x30 + d else 0x57 + d.

Definition hex8 (x : N) : str :=
  [hexdigit ((x / 0x10000000) mod 16); hexdigit ((x / 0x1000000) mod 16);
   hexdigit ((x / 0x100000) mod 16); hexdigit ((x / 0x10000) mod 16);
   hexdigit ((x / 0x1000) mod 16); hexdigit ((x / 0x100) mod 16);
   hexdigit ((x / 0x10) mod 16); hexdigit (x mod 16)].

(** [hashlib.sha256(m).hexdigest()]. *)
Definition hexdigest (m : bytes) : str :=
  let r := digest m in
  hex8 (ra r) ++ hex8 (rb r) ++ hex8 (rc r) ++ hex8 (rd r) ++
  hex8 (re r) ++ hex8 (rf r) ++ hex8 (rg r) ++ hex8 (rh r).

End Sha256.

(** ** Exceptions and the outside world *)

Inductive exn :=
| TypeError            (* a call with the wrong number of arguments *)
| UnicodeEncodeError   (* str.encode on a surrogate *)
| HTTPError            (* Response.raise_for_status *)
| JSONDecodeError      (* json.load on a damaged state file *)
| LibraryError (what : str).  (* anything a library call raised *)

Inductive result (A : Type) :=
| Ok (a : A)
| Raise (e : exn).
Arguments Ok {A} a.
Arguments Raise {A} e.

(** What the parsers hand back. *)
Record response := { r_ok : bool; r_text : str }.
Record anchor := { a_text : str; a_href : option str }.
Record entry := {
  e_title : option str; e_link : option str;
  e_summary : option str; e_description : option str }.

(** The libraries and services the script calls.  [world] is whatever
    state the network and the clock have; a request may change it. *)
Record runtime := {
  world : Type;
  (* [feedparser.parse(url).entries]; [None] when the import failed *)
  feedparser : option (str -> world -> result (list entry) * world);
  (* [requests.get(url, headers=HEADERS, timeout=30)] *)
  requests_get : str -> world -> result response * world;
  (* [requests.post(url, data=..., headers={"Title": ...}, timeout=20)] *)
  requests_post : str -> bytes -> str -> world -> result unit * world;
  (* [BeautifulSoup(text,"html.parser").select(sel)], each anchor with its
     [get_text(" ",strip=True)] and its [href] attribute *)
  soup_select : str -> str -> result (list anchor);
  (* [BeautifulSoup(text,"html.parser").get_text(" ",strip=True)] *)
  soup_get_text : str -> result str;
  (* [urllib.parse.urljoin] *)
  urljoin : str -> str -> result str;
  (* [str.lower] *)
  lower : str -> str;
  (* [(datetime.utcnow()+timedelta(hours=9)).strftime("%Y-%m-%d")] *)
  today : world -> str;
}.

(** Environment settings read at import time. *)
Record config := {
  NTFY_URL : str;
  NTFY_TOPIC : option str;
  MAX_ITEMS_PER_SOURCE : Z;
}.

(** ** Data model *)

Record item := { it_title : str; it_url : str; it_summary : str }.
Record hit := { h_id : str; h_title : str; h_url : str; h_src : str }.
Record source := {
  s_name : str; s_type : str; s_url : str;
  s_item_selector : option str; s_base : option str }.

(** The JSON object of the state file: the ["sent_ids"] entry when there
    is one, and the other entries, which the script carries along. *)
Record state := { sent_ids : option (list str); other_keys : list (str * str) }.

(** What the state file holds: text that [json.load] refuses, or an
    object of the shape above.  A file that parses to a value of another
    shape (a list, an object whose ["sent_ids"] is not a list of
    strings) is not among these values; on a list or on a null
    ["sent_ids"] line 142 raises, before any polling. *)
Inductive fdata :=
| Unreadable
| Json (d : state).

Record fsys := { dir_present : bool; state_file : option fdata }.

Inductive message :=
| SkipNoTopic                          (* "NTFY_TOPIC not set; skip" *)
| PushFailed (e : exn)                 (* "ntfy push failed:" *)
| SourceError (name : str) (e : exn)   (* "source error:" *)
| NoNewUpdates.                        (* "no new tax updates" *)

Inductive event :=
| EFeed (url : str)
| EGet (url : str)
| EPost (url : str) (title : str) (data : bytes)
| EPrint (m : message)
| EWrite (d : state).

#[global] Instance exn_eq_dec : EqDecision exn.
Proof. solve_decision. Defined.
#[global] Instance result_eq_dec {A} `{EqDecision A} : EqDecision (result A).
Proof. solve_decision. Defined.
#[global] Instance item_eq_dec : EqDecision item.
Proof. solve_decision. Defined.
#[global] Instance hit_eq_dec : EqDecision hit.
Proof. solve_decision. Defined.
#[global] Instance state_eq_dec : EqDecision state.
Proof. solve_decision. Defined.
#[global] Instance fdata_eq_dec : EqDecision fdata.
Proof. solve_decision. Defined.
#[global] Instance message_eq_dec : EqDecision message.
Proof. solve_decision. Defined.
#[global] Instance event_eq_dec : EqDecision event.
Proof. solve_decision. Defined.

(** ** Module constants *)

Definition KEYWORDS : list str := Eval vm_compute in map lit
  ["세법"; "개정"; "고시"; "보도자료"; "예규"; "해석"; "사전답변"; "판례";
   "법인세"; "부가세"; "부가가치세"; "소득세"; "원천세"; "지방세";
   "감면"; "공제"; "가산세"; "전자신고"; "연말정산";
   "transfer pricing"; "withholding"; "international tax"]%string.

Definition mk_source (name type url : string) (sel base : option string) : source :=
  {| s_name := lit name; s_type := lit type; s_url := lit url;
     s_item_selector := option_map lit sel; s_base := option_map lit base |}.

Definition SOURCES : list source := Eval vm_compute in
  [ mk_source "기재부_보도자료(RSS)" "rss"
      "https://www.moef.go.kr/feeds/news_release.xml" None None;
    mk_source "국세청_보도자료" "html"
      "https://www.nts.go.kr/nts/cm/cntnts/cntntsView.do?mi=11931"
      (Some "div.bbsList li a") (Some "https://www.nts.go.kr");
    mk_source "국세청_공지사항" "html"
      "https://www.nts.go.kr/nts/cm/cntnts/cntntsList.do?mi=11932"
      (Some "div.bbsList li a") (Some "https://www.nts.go.kr");
    mk_source "법제처_최근공포법령" "html"
      "https://www.law.go.kr/LSW/lsInfoP.do?lsiSeq=&lsId=&efYd=&chrClsCd="
      (Some "a") (Some "https://www.law.go.kr");
    mk_source "법제처_입법예고(RSS)" "rss"
      "https://open.moleg.go.kr/data/xml/li_rssSH01.xml" None None;
    mk_source "기재부_입법·행정예고" "html"
      "https://www.moef.go.kr/lw/lap/TbPrvntcList.do?bbsId=MOSFBBS_000000000055&menuNo=7050300"
      (Some "table a, .bbsList a, a[href*='TbPrvntcView']")
      (Some "https://www.moef.go.kr") ]%string.

(** ** Pure helpers of the script *)

(** [make_id]: SHA-256 of [title.strip()+"|"+url.strip()] in UTF-8, first
    16 hex digits.  The encoding step is the one that can raise. *)
Definition id_text (title url : str) : str := strip title ++ lit "|" ++ strip url.

Definition make_id (title url : str) : result str :=
  match encode_utf8 (id_text title url) with
  | Some b => Ok (firstn 16 (Sha256.hexdigest b))
  | None => Raise UnicodeEncodeError
  end.

(** [strip_html]: [re.sub("<[^<]+?>","",s or "").strip()].  [pending] is
    the text since an unmatched "<", kept if no ">" closes it. *)
Fixpoint drop_tags (pending : option str) (s : str) : str :=
  match s with
  | [] => match pending with None => [] | Some buf => buf end
  | c :: r =>
    match pending with
    | None =>
      if c =? 0x3C then drop_tags (Some [c]) r else c :: drop_tags None r
    | Some buf =>
      if c =? 0x3C then buf ++ drop_tags (Some [c]) r
      else if (c =? 0x3E) && (1 <? length buf)%nat then drop_tags None r
      else drop_tags (Some (buf ++ [c])) r
    end
  end.

Definition strip_html (s : option str) : str :=
  strip (drop_tags None (default [] s)).

(** Truthiness of a string, and [a or b] on strings. *)
Definition nonempty (s : str) : bool := match s with [] => false | _ => true end.
Definition or_str (a : option str) (b : str) : str :=
  match a with
  | Some (c :: r) => c :: r
  | _ => b
  end.

(** [chunk(s, maxlen=1500)]. *)
Fixpoint chunk_loop (maxlen : Z) (lines : list str) (cur : str) (out : list str)
  : str * list str :=
  match lines with
  | [] => (cur, out)
  | line :: rest =>
    let add := line ++ [LF] in
    if (maxlen <? len cur + len add)%Z && nonempty cur
    then chunk_loop maxlen rest add (out ++ [rstrip cur])
    else chunk_loop maxlen rest (cur ++ add) out
  end.

Definition chunk (s : str) (maxlen : Z) : list str :=
  let '(cur, out) := chunk_loop maxlen (splitlines s) [] [] in
  let out := if nonempty cur then out ++ [rstrip cur] else out in
  match out with
  | [] => [lit "(empty)"]
  | _ => out
  end.

(** The dict of the dedup step: insertion-ordered, a repeated key keeps
    its place and takes the new value. *)
Fixpoint dict_set {K V} `{EqDecision K} (k : K) (v : V) (d : list (K * V))
  : list (K * V) :=
  match d with
  | [] => [(k, v)]
  | (k', v') :: r =>
    if decide (k = k') then (k', v) :: r else (k', v') :: dict_set k v r
  end.

Definition item_key (x : item) : str * str := (it_title x, it_url x).

Definition uniq (out : list item) : list (str * str * item) :=
  fold_left (fun d x => dict_set (item_key x) x d) out [].

(** The chunk titles of lines 167-168. *)
Definition chunk_title (day body : str) (i : nat) : str :=
  day ++ lit " 세법/공지 업데이트" ++
  (if (i =? 1)%nat && (len body <=? 1500)%Z then []
   else lit " (" ++ str_of_nat i ++ lit ")").

Fixpoint enumerate {A} (i : nat) (xs : list A) : list (nat * A) :=
  match xs with
  | [] => []
  | x :: r => (i, x) :: enumerate (S i) r
  end.

(** The notifications of one run: title and chunk, in sending order. *)
Definition notifications (day body : str) : list (str * str) :=
  map (fun '(i, ch) => (chunk_title day body i, ch)) (enumerate 1 (chunk body 1500)).

(** ** The script against a runtime *)

Section Script.

Context (R : runtime) (cfg : config).

(** What a run has done so far: the state of the outside world and the
    log of requests, prints and writes, oldest first. *)
Record st := { w : world R; log : list event }.

Definition M (A : Type) : Type := st -> result A * st.

Definition ret {A} (a : A) : M A := fun s => (Ok a, s).
Definition raise {A} (e : exn) : M A := fun s => (Raise e, s).
Definition bind {A B} (m : M A) (k : A -> M B) : M B :=
  fun s => match m s with
           | (Ok a, s') => k a s'
           | (Raise e, s') => (Raise e, s')
           end.
(** [try: m  except Exception as e: h e] *)
Definition try_except {A} (m : M A) (h : exn -> M A) : M A :=
  fun s => match m s with
           | (Ok a, s') => (Ok a, s')
           | (Raise e, s') => h e s'
           end.
Definition lift {A} (r : result A) : M A := fun s => (r, s).

Notation "'do' x <- m ; k" := (bind m (fun x => k))
  (at level 10, x name, m at level 100, k at level 200).

Definition emit (e : event) (s : st) : st := {| w := w s; log := log s ++ [e] |}.
Definition print (m : message) : M unit := fun s => (Ok tt, emit (EPrint m) s).

Definition http_get (url : str) : M response :=
  fun s => let '(r, w') := requests_get R url (w s) in
           (r, {| w := w'; log := log s ++ [EGet url] |}).

Definition http_post (url : str) (data : bytes) (title : str) : M unit :=
  fun s => let '(r, w') := requests_post R url data title (w s) in
           (r, {| w := w'; log := log s ++ [EPost url title data] |}).

Definition match_keywords (text : str) : bool :=
  nonempty text &&
  existsb (fun kw => contains (lower R text) (lower R kw)) KEYWORDS.

Definition send_push (title body : str) : M unit :=
  match NTFY_TOPIC cfg with
  | Some (c :: t) =>
    try_except
      (do data <- lift (match encode_utf8 body with
                     | Some b => Ok b
                     | None => Raise UnicodeEncodeError
                     end) ;
       http_post (rstrip_char 0x2F (NTFY_URL cfg) ++ lit "/" ++ (c :: t)) data title)
      (fun e => print (PushFailed e))
  | _ => print SkipNoTopic
  end.

Definition fetch_rss (url : str) : M (list item) :=
  match feedparser R with
  | None => ret []
  | Some parse =>
    do entries <- (fun s => let '(r, w') := parse url (w s) in
                         (r, {| w := w'; log := log s ++ [EFeed url] |})) ;
    ret (map (fun e =>
                {| it_title := or_str (e_title e) [];
                   it_url := or_str (e_link e) url;
                   it_summary :=
                     strip_html (Some (or_str (e_summary e) (or_str (e_description e) []))) |})
             (slice_to (MAX_ITEMS_PER_SOURCE cfg) entries))
  end.

(** The loop of [fetch_html]: an anchor without text or without href is
    passed over; [urljoin] may raise. *)
Fixpoint anchor_items (root : str) (l : list anchor) : result (list item) :=
  match l with
  | [] => Ok []
  | a :: r =>
    let t := a_text a in
    let href := default [] (a_href a) in
    if negb (nonempty t) || negb (nonempty href) then anchor_items root r
    else match urljoin R root href with
         | Raise e => Raise e
         | Ok u =>
           match anchor_items root r with
           | Raise e => Raise e
           | Ok out => Ok ({| it_title := t; it_url := u; it_summary := [] |} :: out)
           end
         end
  end.

Definition fetch_html (url sel : str) (base : option str) : M (list item) :=
  do r <- http_get url ;
  do _ <- (if r_ok r then ret tt else raise HTTPError) ;
  do anchors <- lift (soup_select R (r_text r) sel) ;
  do out <- lift (anchor_items (or_str base url)
                            (slice_to (MAX_ITEMS_PER_SOURCE cfg) anchors)) ;
  ret (map snd (uniq out)).

Definition fetch_source (src : source) : M (list item) :=
  if bool_decide (s_type src = lit "rss") then fetch_rss (s_url src)
  else fetch_html (s_url src) (default (lit "a") (s_item_selector src)) (s_base src).

(** Lines 150-156: the second look, at the page behind the item. *)
Definition body_matches (url : str) : M bool :=
  try_except
    (do rt <- http_get url ;
     if r_ok rt
     then do body <- lift (soup_get_text R (r_text rt)) ; ret (match_keywords body)
     else ret false)
    (fun _ => ret false).

(** Lines 147-158: one item of one source; [None] when nothing is
    appended to [hits]. *)
Definition consider (sent : gset str) (name : str) (it : item) : M (option hit) :=
  do iid <- lift (make_id (it_title it) (it_url it)) ;
  if bool_decide (iid ∈ sent) then ret None
  else
    do ok <- (if match_keywords (it_title it) then ret true
           else body_matches (it_url it)) ;
    ret (if ok
         then Some {| h_id := iid; h_title := it_title it;
                      h_url := it_url it; h_src := name |}
         else None).

(** The inner [for]: [hits] is the list of [main], appended to in place,
    so what was appended before an exception stays. *)
Fixpoint scan (sent : gset str) (name : str) (its : list item)
  (hits : list hit) (s : st) : result unit * list hit * st :=
  match its with
  | [] => (Ok tt, hits, s)
  | it :: rest =>
    match consider sent name it s with
    | (Raise e, s') => (Raise e, hits, s')
    | (Ok None, s') => scan sent name rest hits s'
    | (Ok (Some h), s') => scan sent name rest (hits ++ [h]) s'
    end
  end.

(** One turn of the outer [for], with its [try]/[except]. *)
Definition poll_source (sent : gset str) (src : source)
  (hits : list hit) (s : st) : list hit * st :=
  match fetch_source src s with
  | (Raise e, s') => (hits, emit (EPrint (SourceError (s_name src) e)) s')
  | (Ok its, s') =>
    match scan sent (s_name src) its hits s' with
    | (Raise e, hits', s'') => (hits', emit (EPrint (SourceError (s_name src) e)) s'')
    | (Ok _, hits', s'') => (hits', s'')
    end
  end.

Fixpoint poll_sources (sent : gset str) (srcs : list source)
  (hits : list hit) (s : st) : list hit * st :=
  match srcs with
  | [] => (hits, s)
  | src :: rest =>
    let '(hits', s') := poll_source sent src hits s in
    poll_sources sent rest hits' s'
  end.

(** State file. *)
Definition ensure_dir (fs : fsys) : fsys :=
  {| dir_present := true; state_file := state_file fs |}.

Definition load_state (fs : fsys) : result state * fsys :=
  let fs := ensure_dir fs in
  match state_file fs with
  | Some (Json d) => (Ok d, fs)
  | Some Unreadable => (Raise JSONDecodeError, fs)
  | None => (Ok {| sent_ids := Some []; other_keys := [] |}, fs)
  end.

Definition save_state (d : state) (fs : fsys) : fsys :=
  {| dir_present := true; state_file := Some (Json d) |}.

(** Line 165.  The call of the shortening function is a parameter here:
    [shorten title 200 "…"]. *)
Definition render (shorten : str -> Z -> str -> result str) (h : hit) : result str :=
  match shorten (h_title h) 200%Z (lit "…") with
  | Raise e => Raise e
  | Ok t => Ok (lit "• (" ++ h_src h ++ lit ") " ++ t ++ [LF] ++ h_url h)
  end.

Fixpoint render_all (shorten : str -> Z -> str -> result str) (top : list hit)
  : result (list str) :=
  match top with
  | [] => Ok []
  | h :: r =>
    match render shorten h with
    | Raise e => Raise e
    | Ok l => match render_all shorten r with
              | Raise e => Raise e
              | Ok ls => Ok (l :: ls)
              end
    end
  end.

Fixpoint push_all (ns : list (str * str)) : M unit :=
  match ns with
  | [] => ret tt
  | (title, ch) :: r => do _ <- send_push title ch ; push_all r
  end.

(** What a run leaves behind. *)
Record outcome := {
  status : result unit;   (* how [main] ended *)
  found : list hit;       (* [hits] after the polling loop *)
  files : fsys;
  final : st;
}.

Definition main_with (shorten : str -> Z -> str -> result str)
  (fs : fsys) (s : st) : outcome :=
  match load_state fs with
  | (Raise e, fs1) => {| status := Raise e; found := []; files := fs1; final := s |}
  | (Ok state0, fs1) =>
    let sent := list_to_set (default [] (sent_ids state0)) : gset str in
    let '(hits, s1) := poll_sources sent SOURCES [] s in
    match hits with
    | [] =>
      {| status := Ok tt; found := hits; files := fs1;
         final := emit (EPrint NoNewUpdates) s1 |}
    | _ :: _ =>
      let day := today R (w s1) in
      let top := firstn 10 hits in
      match render_all shorten top with
      | Raise e => {| status := Raise e; found := hits; files := fs1; final := s1 |}
      | Ok lines =>
        let body := join [LF; LF] lines in
        let '(_, s2) := push_all (notifications day body) s1 in
        let sent' := sent ∪ list_to_set (map h_id top) in
        let state1 := {| sent_ids := Some (elements sent');
                         other_keys := other_keys state0 |} in
        {| status := Ok tt; found := hits; files := save_state state1 fs1;
           final := emit (EWrite state1) s2 |}
      end
    end
  end.

(** [textwrap.shorten(text, width, **kwargs)] takes two positional
    arguments.  Line 165 passes the placeholder as a third one, so the
    call raises TypeError before any shortening is done. *)
Definition textwrap_shorten_3 (text : str) (width : Z) (placeholder : str)
  : result str := Raise TypeError.

Definition main (fs : fsys) (s : st) : outcome := main_with textwrap_shorten_3 fs s.

End Script.

Arguments st R : clear implicits.
Arguments M R A : clear implicits.
Arguments outcome R : clear implicits.
Arguments w {R} s.
Arguments log {R} s.
Arguments emit {R} e s.
Arguments status {R} o.
Arguments found {R} o.
Arguments files {R} o.
Arguments final {R} o.
Arguments http_get {R} url s.
Arguments http_post {R} url data title s.
Arguments send_push {R} cfg title body s.
Arguments push_all {R} cfg ns s.
Arguments fetch_rss {R} cfg url s.
Arguments fetch_html {R} cfg url sel base s.
Arguments fetch_source {R} cfg src s.
Arguments body_matches {R} url s.
Arguments consider {R} sent name it s.
Arguments scan {R} sent name its hits s.
Arguments poll_source {R} cfg sent src hits s.
Arguments poll_sources {R} cfg sent srcs hits s.
Arguments main_with {R} cfg shorten fs s.
Arguments main {R} cfg fs s.

(** ** Vocabulary of the statements *)

(** Code points that the UTF-8 encoder accepts: all but the surrogates. *)
Definition scalar (c : N) : bool :=
  (c <? 0xD800) || ((0xDFFF <? c) && (c <? 0x110000)).

(** Lower-case hexadecimal digits. *)
Definition hexchar (c : N) : bool :=
  ((0x30 <=? c) && (c <=? 0x39)) || ((0x61 <=? c) && (c <=? 0x66)).

(** A run of whole lines, each with its line feed, and the chunk made
    of it. *)
Definition flat (g : list str) : str := concat (map (fun l => l ++ [LF]) g).
Definition chunk_of (g : list str) : str := rstrip (flat g).

(** In the group [g], a line that does not fit the budget is alone. *)
Definition long_alone (maxlen : Z) (g : list str) : Prop :=
  forall l, In l g -> (maxlen <= len l)%Z -> g = [l].

(** ** Sample inputs *)

(** The identity of a pair that has one. *)
Definition id_of (title url : str) : str :=
  match make_id title url with Ok i => i | Raise _ => [] end.

(** One line of 1501 letters with a blank at its end. *)
Definition long_line : str := repeat 0x78 1501 ++ [0x20].

(** A hit whose digest body (lines 165-166) is exactly 1500 characters
    long: a first line of 20 characters, a line feed and a url of 1479. *)
Definition long_url : str := lit "https://www.moef.go.kr/" ++ repeat 0x61 1456.
Definition hit_1500 : hit :=
  {| h_id := id_of (lit "세법") long_url; h_title := lit "세법"; h_url := long_url;
     h_src := lit "기재부_보도자료(RSS)" |}.
Definition body_1500 : str := lit "• (기재부_보도자료(RSS)) 세법" ++ [LF] ++ long_url.

(** Events that are a notification or a write of the state file. *)
Definition is_post (e : event) : bool :=
  match e with EPost _ _ _ => true | _ => false end.
Definition is_write (e : event) : bool :=
  match e with EWrite _ => true | _ => false end.
Definition polling_event (e : event) : bool := negb (is_post e) && negb (is_write e).

(** [s'] is [s] after more polling: the log has grown, by events that
    are neither a notification nor a write. *)
Definition polled {R : runtime} (s s' : st R) : Prop :=
  exists evs, log s' = log s ++ evs /\ forallb polling_event evs = true.

(** An action that only polls. *)
Definition polls {R : runtime} {A : Type} (m : M R A) : Prop :=
  forall s r s', m s = (r, s') -> polled s s'.

(** First occurrences: an item is kept unless its (title, url) pair was
    met before; [seen] holds the pairs met so far. *)
Fixpoint first_occurrences (seen : list (str * str)) (l : list item) : list item :=
  match l with
  | [] => []
  | x :: r =>
    if bool_decide (item_key x ∈ seen) then first_occurrences seen r
    else x :: first_occurrences (seen ++ [item_key x]) r
  end.

(** An anchor that [fetch_html] keeps, and the item made of it. *)
Definition has_text_and_href (a : anchor) : bool :=
  nonempty (a_text a) && nonempty (default [] (a_href a)).

Definition resolved (R : runtime) (root : str) (a : anchor) (x : item) : Prop :=
  it_title x = a_text a /\ it_summary x = [] /\
  urljoin R root (default [] (a_href a)) = Ok (it_url x).

(** ** A sample runtime

    One feed with two entries, one listing page with five anchors, one
    article page without keyword; every other request fails, and so
    does every push.  The world counts the requests served. *)

Definition ascii_lower (s : str) : str :=
  map (fun c => if (0x41 <=? c) && (c <=? 0x5A) then c + 32 else c) s.

Definition feed_url : str := lit "https://www.moef.go.kr/feeds/news_release.xml".
Definition listing_url : str :=
  lit "https://www.nts.go.kr/nts/cm/cntnts/cntntsView.do?mi=11931".

Definition demo_entries : list entry :=
  [ {| e_title := Some (lit "2024년 세법 개정안 발표"); e_link := Some (lit "https://x/1");
       e_summary := Some (lit "<p>요약</p>"); e_description := None |};
    {| e_title := Some (lit "날씨 안내"); e_link := Some (lit "https://x/2");
       e_summary := None; e_description := None |} ].

Definition demo_anchors : list anchor :=
  [ {| a_text := lit "세법 해석 사례"; a_href := Some (lit "/a") |};
    {| a_text := []; a_href := Some (lit "/b") |};
    {| a_text := lit "공지"; a_href := None |};
    {| a_text := lit "세법 해석 사례"; a_href := Some (lit "/a") |};
    {| a_text := lit "날씨"; a_href := Some (lit "/c") |} ].

Definition sample_runtime (entries : list entry) (anchors : list anchor)
  (push : result unit) : runtime := {|
  world := nat;
  feedparser := Some (fun url n =>
    (if bool_decide (url = feed_url) then Ok entries
     else Raise (LibraryError (lit "URLError")), S n));
  requests_get := fun url n =>
    (if bool_decide (url = lit "https://x/2")
     then Ok {| r_ok := true; r_text := lit "오늘은 맑음" |}
     else if bool_decide (url = listing_url)
     then Ok {| r_ok := true; r_text := lit "listing" |}
     else Raise (LibraryError (lit "ConnectionError")), S n);
  requests_post := fun url data title n => (push, S n);
  soup_select := fun text sel =>
    if bool_decide (text = lit "listing") then Ok anchors else Ok [];
  soup_get_text := fun text => Ok text;
  urljoin := fun base href => Ok (base ++ href);
  lower := ascii_lower;
  today := fun _ => lit "2026-11-04";
|}.

Definition demo : runtime :=
  sample_runtime demo_entries demo_anchors (Raise (LibraryError (lit "Timeout"))).

(** The same, with a feed whose only entry gives [hit_1500], an empty
    listing and a sink that accepts every push. *)
Definition demo_1500 : runtime :=
  sample_runtime
    [ {| e_title := Some (lit "세법"); e_link := Some long_url;
         e_summary := None; e_description := None |} ]
    [] (Ok tt).

(** The sample runtime with one more page, whose text holds a keyword
    while the title that links to it does not. *)
Definition page_url : str := lit "https://x/3".
Definition page_item : item :=
  {| it_title := lit "안내"; it_url := page_url; it_summary := [] |}.
Definition demo_page : runtime := {|
  world := nat;
  feedparser := feedparser demo;
  requests_get := fun url n =>
    if bool_decide (url = page_url)
    then (Ok {| r_ok := true; r_text := lit "부가세 신고 안내" |}, S n)
    else requests_get demo url n;
  requests_post := requests_post demo;
  soup_select := soup_select demo;
  soup_get_text := soup_get_text demo;
  urljoin := urljoin demo;
  lower := lower demo;
  today := today demo;
|}.

Definition demo_cfg : config :=
  {| NTFY_URL := lit "https://ntfy.sh"; NTFY_TOPIC := Some (lit "tax");
     MAX_ITEMS_PER_SOURCE := 30 |}.

Definition demo_s0 : st demo := Build_st demo 0%nat [].
Definition demo_1500_s0 : st demo_1500 := Build_st demo_1500 0%nat [].
Definition demo_page_s0 : st demo_page := Build_st demo_page 0%nat [].

(** The titles of the pushes in a log. *)
Definition post_titles (l : list event) : list str :=
  flat_map (fun e => match e with EPost _ title _ => [title] | _ => [] end) l.

Definition tax_item : item :=
  {| it_title := lit "2024년 세법 개정안 발표"; it_url := lit "https://x/1";
     it_summary := lit "요약" |}.
Definition tax_id : str := id_of (it_title tax_item) (it_url tax_item).

Definition listing_items : list item :=
  [ {| it_title := lit "세법 해석 사례"; it_url := lit "https://www.nts.go.kr/a";
       it_summary := [] |};
    {| it_title := lit "날씨"; it_url := lit "https://www.nts.go.kr/c";
       it_summary := [] |} ].

(** No state file yet, and a state file that already holds the two
    items the sample runtime would report. *)
Definition fs_empty : fsys := {| dir_present := false; state_file := None |}.
Definition fs_seen : fsys :=
  {| dir_present := true;
     state_file := Some (Json {|
       sent_ids := Some [tax_id;
                         id_of (lit "세법 해석 사례") (lit "https://www.nts.go.kr/a")];
       other_keys := [] |}) |}.

(** Line 165 as it was meant, good enough for a short title: the
    placeholder passed by keyword, nothing to collapse or cut. *)
Definition shorten_kw (text : str) (width : Z) (placeholder : str) : result str :=
  Ok text.

Definition rss_source : source := Eval vm_compute in nth 0 SOURCES (mk_source "" "" "" None None).
Definition notice_source : source := Eval vm_compute in nth 2 SOURCES (mk_source "" "" "" None None).

(** ** Vocabulary of the further properties *)

(** Reading a decimal numeral back. *)
Definition parse_decimal (s : str) : N :=
  fold_left (fun v c => 10 * v + (c - 0x30)) s 0.

(** A chunk within the budget, or made of one line of the body. *)
Definition chunk_fits (maxlen : Z) (lines : list str) (c : str) : Prop :=
  (len c < maxlen)%Z \/ exists l, In l lines /\ c = rstrip l.

(** The text carries no "<". *)
Definition tagless (s : str) : bool := forallb (fun c => negb (c =? 0x3C)) s.

(** A hit the polling loop may add: its identity is the one of its
    title and url, was not in the set loaded at start, and its source
    is one of the sources polled. *)
Definition new_hit (sent : gset str) (names : list str) (h : hit) : Prop :=
  make_id (h_title h) (h_url h) = Ok (h_id h) /\ (h_id h ∉ sent) /\
  In (h_src h) names.

(** An item whose identity is in the set. *)
Definition seen (sent : gset str) (it : item) : Prop :=
  exists iid, make_id (it_title it) (it_url it) = Ok iid /\ iid ∈ sent.

(** The item [fetch_rss] makes of a feed entry. *)
Definition entry_item (url : str) (e : entry) : item :=
  {| it_title := or_str (e_title e) []; it_url := or_str (e_link e) url;
     it_summary :=
       strip_html (Some (or_str (e_summary e) (or_str (e_description e) []))) |}.

(** A state file that cannot be parsed. *)
Definition fs_damaged : fsys := {| dir_present := true; state_file := Some Unreadable |}.

(** Samples for the further properties: an item that cannot be
    encoded, the items of the sample feed and the set that holds their
    identities, and two notifications. *)
Definition bad_item : item :=
  {| it_title := [0xD800]; it_url := lit "https://x/3"; it_summary := [] |}.
Definition feed_items : list item := map (entry_item feed_url) demo_entries.
Definition feed_seen : gset str :=
  list_to_set (map (fun it => id_of (it_title it) (it_url it)) feed_items).
Definition tax_hit : hit :=
  {| h_id := tax_id; h_title := it_title tax_item; h_url := it_url tax_item;
     h_src := s_name rss_source |}.
Definition two_notes : list (str * str) :=
  [(lit "2026-11-04 세법/공지 업데이트 (1)", lit "세법");
   (lit "2026-11-04 세법/공지 업데이트 (2)", lit "개정")].

(** * Properties *)

(** ** Text helpers *)

Lemma lstrip_by_app_l p a s :
  forallb p a = true -> lstrip_by p (a ++ s) = lstrip_by p s.
Proof.
  induction a as [|c a IH]; simpl; [reflexivity|].
  intros H. apply andb_prop in H as [Hc Ha]. rewrite Hc. auto.
Qed.

Lemma lstrip_by_all p a : forallb p a = true -> lstrip_by p a = [].
Proof.
  intros H. rewrite <- (app_nil_r a). rewrite lstrip_by_app_l; auto.
Qed.

(** Stripping on the left either consumes the whole string or leaves a
    tail that is untouched by what follows. *)
Lemma lstrip_by_app_r p s b :
  lstrip_by p (s ++ b) = lstrip_by p s ++ b \/
  (forallb p s = true /\ lstrip_by p (s ++ b) = lstrip_by p b).
Proof.
  induction s as [|c s IH]; simpl.
  - right. split; reflexivity.
  - destruct (p c) eqn:Hc; simpl.
    + destruct IH as [IH|[Hs IH]]; [left|right]; auto.
    + left. reflexivity.
Qed.

Lemma forallb_rev {A} (p : A -> bool) l : forallb p (rev l) = forallb p l.
Proof.
  induction l as [|x l IH]; simpl; [reflexivity|].
  rewrite forallb_app, IH. simpl. rewrite andb_true_r. apply andb_comm.
Qed.

Lemma rstrip_by_app_r p s b :
  forallb p b = true -> rstrip_by p (s ++ b) = rstrip_by p s.
Proof.
  intros H. unfold rstrip_by. rewrite rev_app_distr.
  rewrite lstrip_by_app_l; [reflexivity|]. now rewrite forallb_rev.
Qed.

(** [strip] does not see white space added around its argument. *)
Lemma strip_padding a s b :
  forallb isspace a = true -> forallb isspace b = true ->
  strip (a ++ s ++ b) = strip s.
Proof.
  intros Ha Hb. unfold strip, lstrip, rstrip.
  rewrite lstrip_by_app_l by assumption.
  destruct (lstrip_by_app_r isspace s b) as [E|[Hs E]]; rewrite E.
  - now apply rstrip_by_app_r.
  - rewrite (lstrip_by_all _ b Hb), (lstrip_by_all _ s Hs). reflexivity.
Qed.

(** What is left of a string after [lstrip_by] is a suffix of it. *)
Lemma lstrip_by_suffix p s : exists a, forallb p a = true /\ s = a ++ lstrip_by p s.
Proof.
  induction s as [|c s (a & Ha & E)]; simpl.
  - exists []. split; reflexivity.
  - destruct (p c) eqn:Hc.
    + exists (c :: a). simpl. rewrite Hc, Ha. split; [reflexivity|]. now f_equal.
    + exists []. split; reflexivity.
Qed.

Lemma rstrip_by_prefix p s : exists b, forallb p b = true /\ s = rstrip_by p s ++ b.
Proof.
  destruct (lstrip_by_suffix p (rev s)) as (a & Ha & E).
  exists (rev a). split; [now rewrite forallb_rev|].
  unfold rstrip_by. rewrite <- rev_app_distr, <- E. now rewrite rev_involutive.
Qed.

Lemma strip_decompose s :
  exists a b, forallb isspace a = true /\ forallb isspace b = true /\
              s = a ++ strip s ++ b.
Proof.
  destruct (lstrip_by_suffix isspace s) as (a & Ha & Ea).
  destruct (rstrip_by_prefix isspace (lstrip s)) as (b & Hb & Eb).
  exists a, b. repeat split; try assumption.
  unfold strip, rstrip. rewrite <- Eb. exact Ea.
Qed.

Lemma strip_idem s : strip (strip s) = strip s.
Proof.
  destruct (strip_decompose s) as (a & b & Ha & Hb & E).
  rewrite E at 2. now rewrite strip_padding.
Qed.

(** ** UTF-8 encoding *)

Lemma encode_cp_scalar c : scalar c = true <-> encode_cp c <> None.
Proof.
  unfold scalar, encode_cp.
  repeat match goal with
         | |- context [?a <? ?b] => destruct (N.ltb_spec a b)
         | |- context [?a <=? ?b] => destruct (N.leb_spec a b)
         end;
    simpl; split; intros E;
    first [reflexivity | discriminate | congruence | exfalso; lia].
Qed.

Lemma encode_utf8_scalar s :
  forallb scalar s = true <-> encode_utf8 s <> None.
Proof.
  induction s as [|c s IH]; simpl; [split; [discriminate|reflexivity]|].
  rewrite andb_true_iff, IH, encode_cp_scalar.
  destruct (encode_cp c), (encode_utf8 s); split; try tauto; try congruence;
    intros; split; congruence.
Qed.

Lemma forallb_lstrip_by (q p : N -> bool) s :
  forallb q s = true -> forallb q (lstrip_by p s) = true.
Proof.
  induction s as [|c s IH]; simpl; [reflexivity|].
  intros H. destruct (p c); [|exact H]. apply andb_prop in H as [_ H]. auto.
Qed.

Lemma forallb_strip q s : forallb q s = true -> forallb q (strip s) = true.
Proof.
  intros H. unfold strip, rstrip, rstrip_by, lstrip.
  rewrite forallb_rev. apply forallb_lstrip_by. rewrite forallb_rev.
  now apply forallb_lstrip_by.
Qed.

(** ** The identity of an item *)

(** Known answers (FIPS 180-4 test vectors and a two-block message). *)
Example sha256_abc :
  Sha256.hexdigest (octets "abc")
  = lit "ba7816bf8f01cfea414140de5dae2223b00361a396177a9cb410ff61f20015ad".
Proof. vm_compute. reflexivity. Qed.

Example sha256_empty :
  Sha256.hexdigest []
  = lit "e3b0c44298fc1c149afbf4c8996fb92427ae41e4649b934ca495991b7852b855".
Proof. vm_compute. reflexivity. Qed.

Example sha256_two_blocks :
  Sha256.hexdigest (octets "abcdbcdecdefdefgefghfghighijhijkijkljklmklmnlmnomnopnopq")
  = lit "248d6a61d20638b8e5c026930c3e6039a33ce45964ff2167f6ecedd419db06c1".
Proof. vm_compute. reflexivity. Qed.

Lemma hexdigit_hexchar x : hexchar (Sha256.hexdigit (x mod 16)) = true.
Proof.
  assert (H : x mod 16 < 16) by (apply N.mod_lt; discriminate).
  generalize dependent (x mod 16). intros d H.
  unfold hexchar, Sha256.hexdigit.
  destruct (d <? 10) eqn:E;
    rewrite ?N.ltb_lt, ?N.ltb_ge in E;
    rewrite orb_true_iff, !andb_true_iff, !N.leb_le; lia.
Qed.

Lemma hexdigest_length m : length (Sha256.hexdigest m) = 64%nat.
Proof. unfold Sha256.hexdigest. rewrite !length_app. reflexivity. Qed.

Lemma hexdigest_hexchars m : forallb hexchar (Sha256.hexdigest m) = true.
Proof.
  unfold Sha256.hexdigest. rewrite !forallb_app. unfold Sha256.hex8.
  cbn [forallb].
  rewrite !hexdigit_hexchar. reflexivity.
Qed.

Lemma forallb_firstn {A} (p : A -> bool) n l :
  forallb p l = true -> forallb p (firstn n l) = true.
Proof.
  revert l. induction n as [|n IH]; intros [|x l]; simpl; try reflexivity.
  intros H. apply andb_prop in H as [Hx Hl]. rewrite Hx. simpl. auto.
Qed.

Lemma make_id_padding a title b c url d :
  forallb isspace a = true -> forallb isspace b = true ->
  forallb isspace c = true -> forallb isspace d = true ->
  make_id (a ++ title ++ b) (c ++ url ++ d) = make_id title url.
Proof.
  intros Ha Hb Hc Hd. unfold make_id, id_text.
  now rewrite !strip_padding.
Qed.

Lemma make_id_ok title url :
  forallb scalar title = true -> forallb scalar url = true ->
  exists bs,
    encode_utf8 (strip title ++ lit "|" ++ strip url) = Some bs /\
    make_id title url = Ok (firstn 16 (Sha256.hexdigest bs)) /\
    length (firstn 16 (Sha256.hexdigest bs)) = 16%nat /\
    forallb hexchar (firstn 16 (Sha256.hexdigest bs)) = true.
Proof.
  intros Ht Hu. unfold make_id. fold (id_text title url).
  destruct (encode_utf8 (id_text title url)) as [bs|] eqn:E.
  - exists bs. split; [reflexivity|]. split; [reflexivity|]. split.
    + rewrite length_firstn, hexdigest_length. reflexivity.
    + apply forallb_firstn, hexdigest_hexchars.
  - exfalso. revert E. apply encode_utf8_scalar.
    unfold id_text. rewrite !forallb_app, !forallb_strip by assumption.
    reflexivity.
Qed.

(** C4 as the code has it.  Padding either field with white space never
    changes the outcome of [make_id].  Whenever title and url hold no
    surrogate code point the outcome is an identity: the first 16
    characters of the hexadecimal SHA-256 digest of the UTF-8 bytes of
    trimmed title, "|" and trimmed url, all of them lower-case
    hexadecimal digits.  As soon as what is left of one of the fields
    after trimming holds a surrogate, the outcome is the
    UnicodeEncodeError of the encoder. *)
Theorem make_id_spec (title url a b c d : str) :
  forallb isspace (a ++ b ++ c ++ d) = true ->
  make_id (a ++ title ++ b) (c ++ url ++ d) = make_id title url /\
  make_id (strip title) (strip url) = make_id title url /\
  (forallb scalar (title ++ url) = true ->
   exists bs,
     encode_utf8 (strip title ++ lit "|" ++ strip url) = Some bs /\
     make_id title url = Ok (firstn 16 (Sha256.hexdigest bs)) /\
     length (firstn 16 (Sha256.hexdigest bs)) = 16%nat /\
     forallb hexchar (firstn 16 (Sha256.hexdigest bs)) = true) /\
  (forallb scalar (strip title ++ strip url) = false ->
   make_id title url = Raise UnicodeEncodeError).
Proof.
  rewrite !forallb_app, !andb_true_iff. intros (Ha & Hb & Hc & Hd).
  split; [now apply make_id_padding|]. split; [|split].
  - unfold make_id, id_text. now rewrite !strip_idem.
  - intros [Ht Hu]. now apply make_id_ok.
  - intros H. unfold make_id.
    destruct (encode_utf8 (id_text title url)) eqn:E; [|reflexivity].
    exfalso. assert (E' : encode_utf8 (id_text title url) <> None) by congruence.
    apply encode_utf8_scalar in E'. unfold id_text in E'.
    rewrite !forallb_app in E'. apply andb_prop in E' as [E1 E2].
    apply andb_prop in E2 as [_ E2]. rewrite E1, E2 in H. discriminate.
Qed.

Lemma make_id_spec_witness :
  make_id (lit " 세법 개정 ") (lit "https://x/1" ++ [LF])
  = make_id (lit "세법 개정") (lit "https://x/1") /\
  make_id (lit "세법 개정") (lit "https://x/1")
  = Ok (firstn 16 (Sha256.hexdigest (octets "세법 개정|https://x/1"))) /\
  firstn 16 (Sha256.hexdigest (octets "세법 개정|https://x/1"))
  = lit "2a4bf8b217f38e46".
Proof.
  destruct (make_id_spec (lit "세법 개정") (lit "https://x/1")
              (lit " ") (lit " ") [] [LF] eq_refl) as (H1 & _ & H2 & _).
  split; [exact H1|].
  destruct (H2 eq_refl) as (bs & E & H & _).
  assert (E' : encode_utf8 (strip (lit "세법 개정") ++ lit "|" ++ strip (lit "https://x/1"))
               = Some (octets "세법 개정|https://x/1")) by (vm_compute; reflexivity).
  rewrite E' in E. injection E as <-.
  split; [exact H|]. vm_compute. reflexivity.
Defined.

(** C4 as the specification words it does not hold: a title with a
    lone surrogate (a page can carry one as a numeric character
    reference) makes the encoder raise, and no identity comes back. *)
Lemma make_id_surrogate :
  make_id [0xD800] (lit "https://x/1") = Raise UnicodeEncodeError /\
  ~ (exists i, make_id [0xD800] (lit "https://x/1") = Ok i /\ length i = 16%nat).
Proof.
  split; [reflexivity|]. intros (i & H & _). discriminate H.
Qed.

(** C10.  The identity is the digest of trimmed title, "|" and trimmed
    url run together, so moving a "|" from one field to the other gives
    the same text to hash: two different items, one identity, before any
    truncation takes place. *)
Theorem make_id_not_injective :
  (lit "a|b", lit "c") <> (lit "a", lit "b|c") /\
  id_text (lit "a|b") (lit "c") = id_text (lit "a") (lit "b|c") /\
  make_id (lit "a|b") (lit "c") = make_id (lit "a") (lit "b|c") /\
  make_id (lit "a|b") (lit "c") = Ok (lit "a52dd81bfd5e4e66") /\
  (forall t u t' u', id_text t u = id_text t' u' -> make_id t u = make_id t' u').
Proof.
  split; [discriminate|]. split; [reflexivity|]. split; [reflexivity|].
  split; [vm_compute; reflexivity|].
  intros t u t' u' E. unfold make_id. now rewrite E.
Qed.

(** ** Chunking *)

Lemma flat_app g h : flat (g ++ h) = flat g ++ flat h.
Proof. unfold flat. now rewrite map_app, concat_app. Qed.

Lemma flat_one l : flat [l] = l ++ [LF].
Proof. unfold flat. simpl. now rewrite app_nil_r. Qed.

Lemma nonempty_flat g : nonempty (flat g) = match g with [] => false | _ => true end.
Proof.
  destruct g as [|l g]; [reflexivity|].
  unfold flat. simpl. destruct l; reflexivity.
Qed.

Lemma len_app a b : len (a ++ b) = (len a + len b)%Z.
Proof. unfold len. rewrite length_app. lia. Qed.

Lemma len_nonneg a : (0 <= len a)%Z.
Proof. unfold len. lia. Qed.

Lemma len_flat_in l g : In l g -> (len l + 1 <= len (flat g))%Z.
Proof.
  induction g as [|x g IH]; simpl; [tauto|].
  change (flat (x :: g)) with ((x ++ [LF]) ++ flat g).
  rewrite !len_app. change (len [LF]) with 1%Z.
  pose proof (len_nonneg (flat g)). pose proof (len_nonneg x).
  intros [->|Hin]; [lia|]. specialize (IH Hin). lia.
Qed.

Lemma rstrip_line l : rstrip (l ++ [LF]) = rstrip l.
Proof. apply rstrip_by_app_r. reflexivity. Qed.

(** The loop of [chunk] seen on groups of lines: [cur] is the run
    [flat curg] of the lines of the group being filled, [out] the chunks
    of the groups already closed. *)
Lemma chunk_loop_groups maxlen lines : forall curg outg,
  long_alone maxlen curg -> Forall (long_alone maxlen) outg ->
  Forall (fun g => g <> []) outg ->
  exists curg' outg',
    chunk_loop maxlen lines (flat curg) (map chunk_of outg)
      = (flat curg', map chunk_of outg') /\
    concat outg' ++ curg' = concat outg ++ curg ++ lines /\
    long_alone maxlen curg' /\ Forall (long_alone maxlen) outg' /\
    Forall (fun g => g <> []) outg' /\
    (curg ++ lines <> [] -> curg' <> []).
Proof.
  induction lines as [|line rest IH]; intros curg outg Hc Ho Hne.
  - exists curg, outg. simpl. rewrite app_nil_r. repeat split; auto.
  - simpl chunk_loop.
    destruct ((maxlen <? len (flat curg) + len (line ++ [LF]))%Z
              && nonempty (flat curg)) eqn:C.
    + (* the group is closed, [line] opens the next one *)
      apply andb_prop in C as [_ C2]. rewrite nonempty_flat in C2.
      assert (A1 : long_alone maxlen [line]) by (intros l [<-|[]] _; reflexivity).
      assert (A2 : Forall (long_alone maxlen) (outg ++ [curg])).
      { apply Forall_app. split; [assumption|]. constructor; [assumption|constructor]. }
      assert (A3 : Forall (fun g : list str => g <> []) (outg ++ [curg])).
      { apply Forall_app. split; [assumption|]. constructor; [|constructor].
        destruct curg; discriminate. }
      destruct (IH [line] (outg ++ [curg]) A1 A2 A3)
        as (cg & og & E & Hcat & H1 & H2 & H3 & H4).
      exists cg, og. rewrite <- flat_one, <- E.
      rewrite map_app. simpl. split; [reflexivity|].
      split; [|repeat split; auto; intros _; apply H4; discriminate].
      rewrite Hcat, concat_app. simpl. now rewrite app_nil_r, <- app_assoc.
    + (* [line] joins the group *)
      assert (A1 : long_alone maxlen (curg ++ [line])).
      { intros l Hin Hlong.
        apply andb_false_iff in C as [C|C].
        - exfalso. apply Z.ltb_ge in C.
          pose proof (len_flat_in l (curg ++ [line]) Hin) as Hl.
          rewrite flat_app, flat_one, len_app in Hl. lia.
        - rewrite nonempty_flat in C. destruct curg; [|discriminate].
          simpl in Hin. destruct Hin as [<-|[]]. reflexivity. }
      destruct (IH (curg ++ [line]) outg A1 Ho Hne)
        as (cg & og & E & Hcat & H1 & H2 & H3 & H4).
      exists cg, og. rewrite flat_app, flat_one in E. rewrite E.
      split; [reflexivity|].
      split; [|repeat split; auto; intros _; apply H4; destruct curg; discriminate].
      rewrite Hcat. now rewrite <- app_assoc.
Qed.

Lemma splitlines_from_nonempty s : forall cur,
  cur <> [] -> splitlines_from cur s <> [].
Proof.
  induction s as [|c r IH]; intros cur H; simpl.
  - destruct cur; [contradiction|discriminate].
  - destruct (is_linebreak c); [discriminate|].
    apply IH. destruct cur; discriminate.
Qed.

Lemma splitlines_nonempty s : s <> [] -> splitlines s <> [].
Proof.
  destruct s as [|c r]; [contradiction|]. intros _. unfold splitlines. simpl.
  destruct (is_linebreak c); [discriminate|].
  apply splitlines_from_nonempty. discriminate.
Qed.

(** Every line costs its length and one; the lines of [s] cost no more
    than [s] and one (the last line may lack its boundary). *)
Lemma splitlines_from_cost n : forall s cur,
  (length s <= n)%nat ->
  (length (flat (splitlines_from cur s)) <= length cur + length s + 1)%nat.
Proof.
  induction n as [|n IH]; intros s cur Hn.
  - destruct s; [|simpl in Hn; lia]. simpl.
    destruct cur; [simpl; lia|]. rewrite flat_one, length_app. simpl. lia.
  - destruct s as [|c r]; simpl in *.
    + destruct cur; [simpl; lia|]. rewrite flat_one, length_app. simpl. lia.
    + destruct (is_linebreak c).
      * change (flat (cur :: ?t)) with ((cur ++ [LF]) ++ flat t).
        rewrite !length_app. simpl.
        destruct r as [|c' r'].
        -- simpl. lia.
        -- destruct ((c =? CR) && (c' =? LF)).
           ++ specialize (IH r' [] ltac:(simpl in *; lia)). simpl in *. lia.
           ++ specialize (IH (c' :: r') [] ltac:(simpl in *; lia)). simpl in *. lia.
      * specialize (IH r (cur ++ [c]) ltac:(lia)).
        rewrite length_app in IH. simpl in IH. lia.
Qed.

Lemma splitlines_cost s : (len (flat (splitlines s)) <= len s + 1)%Z.
Proof.
  pose proof (splitlines_from_cost (length s) s [] (le_n _)) as H.
  unfold splitlines, len. simpl in H. lia.
Qed.

(** While everything fits, the loop only accumulates. *)
Lemma chunk_loop_fits maxlen lines : forall cur out,
  (len cur + len (flat lines) <= maxlen)%Z ->
  chunk_loop maxlen lines cur out = (cur ++ flat lines, out).
Proof.
  induction lines as [|line rest IH]; intros cur out H; simpl.
  - now rewrite app_nil_r.
  - change (flat (line :: rest)) with ((line ++ [LF]) ++ flat rest) in *.
    rewrite len_app in H. pose proof (len_nonneg (flat rest)).
    replace (maxlen <? len cur + len (line ++ [LF]))%Z with false
      by (symmetry; apply Z.ltb_ge; lia).
    simpl. rewrite IH by (rewrite len_app; lia). now rewrite <- app_assoc.
Qed.

Lemma chunk_small s maxlen : (len s < maxlen)%Z -> length (chunk s maxlen) = 1%nat.
Proof.
  intros H. unfold chunk. pose proof (splitlines_cost s).
  rewrite chunk_loop_fits by (change (len []) with 0%Z; lia).
  simpl. destruct (nonempty (flat (splitlines s))); reflexivity.
Qed.

Lemma chunk_groups s maxlen :
  s <> [] ->
  exists groups,
    concat groups = splitlines s /\ Forall (fun g => g <> []) groups /\
    Forall (long_alone maxlen) groups /\ chunk s maxlen = map chunk_of groups.
Proof.
  intros Hs. apply splitlines_nonempty in Hs.
  destruct (chunk_loop_groups maxlen (splitlines s) [] [])
    as (cg & og & E & Hcat & H1 & H2 & H3 & H4);
    [intros l []|constructor|constructor|].
  specialize (H4 Hs). exists (og ++ [cg]). split; [|split; [|split]].
  - rewrite concat_app. simpl. now rewrite app_nil_r.
  - apply Forall_app. split; [assumption|]. constructor; [assumption|constructor].
  - apply Forall_app. split; [assumption|]. constructor; [assumption|constructor].
  - unfold chunk.
    change (chunk_loop maxlen (splitlines s) [] [])
      with (chunk_loop maxlen (splitlines s) (flat []) (map chunk_of [])).
    rewrite E.
    rewrite nonempty_flat. destruct cg as [|l cg]; [contradiction|].
    rewrite map_app. simpl. destruct (map chunk_of og); reflexivity.
Qed.

Lemma chunk_one_line s l maxlen : splitlines s = [l] -> chunk s maxlen = [rstrip l].
Proof.
  intros E. unfold chunk. rewrite E. unfold chunk_loop.
  change (nonempty []) with false. rewrite andb_false_r.
  change ([] ++ l ++ [LF]) with (l ++ [LF]).
  replace (nonempty (l ++ [LF])) with true by (destruct l; reflexivity).
  simpl. now rewrite rstrip_line.
Qed.

Lemma chunk_long_line s maxlen l :
  In l (splitlines s) -> (maxlen <= len l)%Z -> In (rstrip l) (chunk s maxlen).
Proof.
  intros Hin Hlong.
  destruct (chunk_groups s maxlen) as (groups & Hcat & _ & Halone & ->).
  { intros ->. exact Hin. }
  rewrite <- Hcat in Hin. apply in_concat in Hin as (g & Hg & Hl).
  rewrite List.Forall_forall in Halone. pose proof (Halone g Hg l Hl Hlong) as ->.
  rewrite <- rstrip_line, <- flat_one. apply (in_map chunk_of _ _ Hg).
Qed.

(** C5 as the code has it.  The chunks are made of whole lines: the
    lines of the body are cut into consecutive non-empty groups and each
    chunk is one group, every line followed by a line feed, with the
    white space at the end of the group removed.  A body shorter than
    the budget gives one chunk; a line that does not fit the budget is
    alone in its group, so its chunk is that line without its trailing
    white space; the empty body gives the placeholder. *)
Theorem chunk_spec (s : str) (maxlen : Z) :
  (s = [] -> chunk s maxlen = [lit "(empty)"]) /\
  ((len s < maxlen)%Z -> length (chunk s maxlen) = 1%nat) /\
  (s <> [] ->
   exists groups,
     concat groups = splitlines s /\ Forall (fun g => g <> []) groups /\
     Forall (long_alone maxlen) groups /\ chunk s maxlen = map chunk_of groups) /\
  (forall l, splitlines s = [l] -> chunk s maxlen = [rstrip l]) /\
  (forall l, In l (splitlines s) -> (maxlen <= len l)%Z ->
             In (rstrip l) (chunk s maxlen)).
Proof.
  split; [intros ->; reflexivity|].
  split; [apply chunk_small|].
  split; [apply chunk_groups|].
  split; [intros l; apply chunk_one_line|].
  intros l. apply chunk_long_line.
Qed.

Lemma chunk_spec_witness :
  length (chunk (lit "• (국세청_보도자료) 세법") 1500) = 1%nat /\
  chunk long_line 1500 = [rstrip long_line].
Proof.
  split.
  - destruct (chunk_spec (lit "• (국세청_보도자료) 세법") 1500) as (_ & H & _).
    apply H. vm_compute. reflexivity.
  - destruct (chunk_spec long_line 1500) as (_ & _ & _ & H & _).
    apply H. vm_compute. reflexivity.
Defined.

(** C5 as the specification words it does not hold for a line that
    ends in white space: the line is longer than the budget and alone in
    its chunk, but the chunk is not the line, its last character is
    gone. *)
Lemma chunk_long_line_not_intact :
  splitlines long_line = [long_line] /\ (1500 < len long_line)%Z /\
  chunk long_line 1500 = [repeat 0x78 1501] /\
  ~ In long_line (chunk long_line 1500).
Proof.
  assert (E : chunk long_line 1500 = [repeat 0x78 1501]) by (vm_compute; reflexivity).
  split; [vm_compute; reflexivity|]. split; [reflexivity|]. split; [exact E|].
  rewrite E. intros [H|[]]. apply (f_equal (@length N)) in H.
  vm_compute in H. discriminate H.
Qed.

(** ** Chunk titles *)

Lemma chunk_title_numbered day body i :
  (1500 < len body)%Z ->
  chunk_title day body i
  = day ++ lit " 세법/공지 업데이트" ++ lit " (" ++ str_of_nat i ++ lit ")".
Proof.
  intros H. unfold chunk_title.
  replace (len body <=? 1500)%Z with false by (symmetry; apply Z.leb_gt; lia).
  now rewrite andb_false_r.
Qed.

Lemma notifications_short day body :
  (len body < 1500)%Z ->
  exists ch, notifications day body = [(day ++ lit " 세법/공지 업데이트", ch)].
Proof.
  intros H. unfold notifications.
  pose proof (chunk_small body 1500 H) as L.
  destruct (chunk body 1500) as [|ch [|? ?]]; try discriminate L.
  exists ch. simpl. unfold chunk_title.
  replace (len body <=? 1500)%Z with true by (symmetry; apply Z.leb_le; lia).
  now rewrite app_nil_r.
Qed.

(** Lines 167-168 taken by themselves.  The title test compares
    [len(body)] with 1500, while [chunk] counts one more character per
    line; for a body of exactly 1500 characters in two lines they give
    two chunks, the first one under the bare label, without its "(1)". *)
Lemma first_title_bare_at_1500 (day : str) :
  len body_1500 = 1500%Z /\
  chunk body_1500 1500 = [lit "• (기재부_보도자료(RSS)) 세법"; long_url] /\
  map fst (notifications day body_1500)
  = [day ++ lit " 세법/공지 업데이트";
     day ++ lit " 세법/공지 업데이트" ++ lit " (2)"].
Proof.
  assert (L : len body_1500 = 1500%Z) by reflexivity.
  assert (E : chunk body_1500 1500 = [lit "• (기재부_보도자료(RSS)) 세법"; long_url])
    by (vm_compute; reflexivity).
  split; [exact L|]. split; [exact E|].
  unfold notifications. rewrite E.
  change (map ?f (enumerate 1 [?a; ?b])) with [f (1%nat, a); f (2%nat, b)].
  cbv beta iota. unfold map, fst, chunk_title. rewrite L.
  change ((1 =? 1)%nat && (1500 <=? 1500)%Z) with true.
  change ((2 =? 1)%nat && (1500 <=? 1500)%Z) with false.
  cbv iota. rewrite app_nil_r. do 3 f_equal.
Qed.

(** ** The polling loop *)

Section Properties.

Context (R : runtime) (cfg : config).
Implicit Types s : st R.

Lemma polled_refl (s : st R) : polled s s.
Proof. exists []. now rewrite app_nil_r. Qed.

Lemma polled_trans (s1 s2 s3 : st R) :
  polled s1 s2 -> polled s2 s3 -> polled s1 s3.
Proof.
  intros (e1 & E1 & H1) (e2 & E2 & H2). exists (e1 ++ e2).
  rewrite E2, E1, <- app_assoc, forallb_app, H1, H2. auto.
Qed.

Lemma polled_emit (s : st R) e : polling_event e = true -> polled s (emit e s).
Proof. intros H. exists [e]. simpl. now rewrite H. Qed.

Lemma polls_ret {A} (a : A) : polls (ret R a).
Proof. intros s r s' [= _ <-]. apply polled_refl. Qed.

Lemma polls_raise {A} e : polls (@raise R A e).
Proof. intros s r s' [= _ <-]. apply polled_refl. Qed.

Lemma polls_lift {A} (x : result A) : polls (lift R x).
Proof. intros s r s' [= _ <-]. apply polled_refl. Qed.

Lemma polls_bind {A B} (m : M R A) (k : A -> M R B) :
  polls m -> (forall a, polls (k a)) -> polls (bind R m k).
Proof.
  intros Hm Hk s r s' E. unfold bind in E.
  destruct (m s) as [[a|e] s1] eqn:E1.
  - eapply polled_trans; [eapply Hm, E1|eapply Hk, E].
  - injection E as _ <-. eapply Hm, E1.
Qed.

Lemma polls_try {A} (m : M R A) (h : exn -> M R A) :
  polls m -> (forall e, polls (h e)) -> polls (try_except R m h).
Proof.
  intros Hm Hh s r s' E. unfold try_except in E.
  destruct (m s) as [[a|e] s1] eqn:E1.
  - injection E as _ <-. eapply Hm, E1.
  - eapply polled_trans; [eapply Hm, E1|eapply Hh, E].
Qed.

Lemma polls_http_get url : polls (@http_get R url).
Proof.
  intros s r s' E. unfold http_get in E.
  destruct (requests_get R url (w s)) as [r0 w0]. injection E as _ <-.
  exists [EGet url]. split; reflexivity.
Qed.

(** Actions built from the pieces above poll, by their structure. *)
Ltac polls_step :=
  first
    [ apply polls_ret | apply polls_raise | apply polls_lift
    | apply polls_http_get
    | apply polls_bind; [|intro]
    | apply polls_try; [|intro]
    | match goal with
      | |- polls (if ?b then _ else _) => destruct b
      end ].

Lemma polls_fetch_rss url : polls (@fetch_rss R cfg url).
Proof.
  unfold fetch_rss. destruct (feedparser R) as [parse|]; [|apply polls_ret].
  apply polls_bind; [|intros; apply polls_ret].
  intros s r s' E. destruct (parse url (w s)) as [r0 w0]. injection E as _ <-.
  exists [EFeed url]. split; reflexivity.
Qed.

Lemma polls_fetch_html url sel base : polls (@fetch_html R cfg url sel base).
Proof. unfold fetch_html. repeat polls_step. Qed.

Lemma polls_fetch_source src : polls (@fetch_source R cfg src).
Proof.
  unfold fetch_source. destruct (bool_decide _);
    [apply polls_fetch_rss|apply polls_fetch_html].
Qed.

Lemma polls_body_matches url : polls (@body_matches R url).
Proof. unfold body_matches. repeat polls_step. Qed.

Lemma polls_consider sent name it : polls (@consider R sent name it).
Proof. unfold consider. repeat polls_step. Qed.

Lemma polled_scan sent name its : forall hits s r hits' s',
  scan sent name its hits s = (r, hits', s') -> polled s s'.
Proof.
  induction its as [|it rest IH]; intros hits s r hits' s' E; simpl in E.
  - injection E as _ _ <-. apply polled_refl.
  - destruct (consider sent name it s) as [[[h|]|e] s1] eqn:E1;
      pose proof (polls_consider _ _ _ _ _ _ E1) as P.
    + eapply polled_trans; [exact P|eapply IH, E].
    + eapply polled_trans; [exact P|eapply IH, E].
    + injection E as _ _ <-. exact P.
Qed.

Lemma polled_poll_source sent src hits s hits' s' :
  poll_source cfg sent src hits s = (hits', s') -> polled s s'.
Proof.
  unfold poll_source. intros E.
  destruct (fetch_source cfg src s) as [[its|e] s1] eqn:E1;
    pose proof (polls_fetch_source _ _ _ _ E1) as P.
  - destruct (scan sent (s_name src) its hits s1) as [[[u|e] h2] s2] eqn:E2;
      pose proof (polled_scan _ _ _ _ _ _ _ _ E2) as P2; injection E as _ <-.
    + eapply polled_trans; eassumption.
    + eapply polled_trans; [eassumption|].
      eapply polled_trans; [eassumption|]. now apply polled_emit.
  - injection E as _ <-. eapply polled_trans; [eassumption|]. now apply polled_emit.
Qed.

Lemma polled_poll_sources sent srcs : forall hits s hits' s',
  poll_sources cfg sent srcs hits s = (hits', s') -> polled s s'.
Proof.
  induction srcs as [|src rest IH]; intros hits s hits' s' E; simpl in E.
  - injection E as _ <-. apply polled_refl.
  - destruct (poll_source cfg sent src hits s) as [h1 s1] eqn:E1.
    eapply polled_trans; [eapply polled_poll_source, E1|eapply IH, E].
Qed.

Lemma poll_sources_app sent pre post hits (s : st R) :
  poll_sources cfg sent (pre ++ post) hits s
  = poll_sources cfg sent post (fst (poll_sources cfg sent pre hits s))
                               (snd (poll_sources cfg sent pre hits s)).
Proof.
  revert hits s. induction pre as [|src pre IH]; intros hits s; simpl.
  - reflexivity.
  - destruct (poll_source cfg sent src hits s) as [h1 s1]. apply IH.
Qed.

(** C9.  A failure of [fetch_source] for one source is caught on the
    spot: the hits gathered so far go on unchanged to the sources that
    follow, which are all polled, the only trace of the failure being
    the printed "source error" line. *)
Theorem source_failure_is_local (sent : gset str) (pre post : list source)
  (src : source) (hits h1 : list hit) (s s1 s2 : st R) (e : exn) :
  poll_sources cfg sent pre hits s = (h1, s1) ->
  fetch_source cfg src s1 = (Raise e, s2) ->
  poll_source cfg sent src h1 s1
  = (h1, emit (EPrint (SourceError (s_name src) e)) s2) /\
  poll_sources cfg sent (pre ++ src :: post) hits s
  = poll_sources cfg sent post h1 (emit (EPrint (SourceError (s_name src) e)) s2).
Proof.
  intros Hpre Hfail.
  assert (E : poll_source cfg sent src h1 s1
              = (h1, emit (EPrint (SourceError (s_name src) e)) s2))
    by (unfold poll_source; now rewrite Hfail).
  split; [exact E|].
  rewrite poll_sources_app, Hpre. simpl. now rewrite E.
Qed.

(** C8.  The second look never raises and costs one request.  It
    answers [false] when the request raises, when it comes back with an
    error status and when the page text cannot be extracted; it answers
    [true] exactly when the request succeeds with an ok status and the
    extracted page text matches a keyword.  An unseen item whose title
    does not match is a hit exactly when that answer is [true]. *)
Theorem body_check_fails_closed (sent : gset str) (name : str) (it : item)
  (iid : str) (s : st R) :
  make_id (it_title it) (it_url it) = Ok iid -> iid ∉ sent ->
  match_keywords R (it_title it) = false ->
  exists (b : bool) (s' : st R),
    body_matches (it_url it) s = (Ok b, s') /\
    consider sent name it s
    = (Ok (if b then Some {| h_id := iid; h_title := it_title it;
                             h_url := it_url it; h_src := name |}
           else None), s') /\
    (forall e w', requests_get R (it_url it) (w s) = (Raise e, w') -> b = false) /\
    (forall rt w', requests_get R (it_url it) (w s) = (Ok rt, w') ->
                   r_ok rt = false -> b = false) /\
    (forall rt w' e, requests_get R (it_url it) (w s) = (Ok rt, w') ->
                     soup_get_text R (r_text rt) = Raise e -> b = false) /\
    (b = true <->
     exists rt w' body,
       requests_get R (it_url it) (w s) = (Ok rt, w') /\ r_ok rt = true /\
       soup_get_text R (r_text rt) = Ok body /\ match_keywords R body = true) /\
    (forall rt w' body,
       requests_get R (it_url it) (w s) = (Ok rt, w') -> r_ok rt = true ->
       soup_get_text R (r_text rt) = Ok body -> b = match_keywords R body) /\
    w s' = snd (requests_get R (it_url it) (w s)) /\
    log s' = log s ++ [EGet (it_url it)].
Proof.
  intros Hid Hnew Htitle.
  assert (B : exists b s',
    body_matches (it_url it) s = (Ok b, s') /\
    (forall e w', requests_get R (it_url it) (w s) = (Raise e, w') -> b = false) /\
    (forall rt w', requests_get R (it_url it) (w s) = (Ok rt, w') ->
                   r_ok rt = false -> b = false) /\
    (forall rt w' e, requests_get R (it_url it) (w s) = (Ok rt, w') ->
                     soup_get_text R (r_text rt) = Raise e -> b = false) /\
    (b = true <->
     exists rt w' body,
       requests_get R (it_url it) (w s) = (Ok rt, w') /\ r_ok rt = true /\
       soup_get_text R (r_text rt) = Ok body /\ match_keywords R body = true) /\
    (forall rt w' body,
       requests_get R (it_url it) (w s) = (Ok rt, w') -> r_ok rt = true ->
       soup_get_text R (r_text rt) = Ok body -> b = match_keywords R body) /\
    w s' = snd (requests_get R (it_url it) (w s)) /\
    log s' = log s ++ [EGet (it_url it)]).
  { unfold body_matches, try_except, bind, http_get, lift, ret.
    destruct (requests_get R (it_url it) (w s)) as [[rt|e] w1] eqn:G.
    - destruct (r_ok rt) eqn:Hok.
      + destruct (soup_get_text R (r_text rt)) as [body|e] eqn:T.
        * eexists _, _. split; [reflexivity|].
          repeat split; try congruence.
          -- intros Hb. exists rt, w1, body. auto.
          -- intros (rt' & w'' & body' & G' & O' & T' & M'). congruence.
        * eexists _, _. split; [reflexivity|].
          repeat split; try congruence.
          intros (rt' & w'' & body' & G' & O' & T' & M'). congruence.
      + eexists _, _. split; [reflexivity|].
        repeat split; try congruence.
        intros (rt' & w'' & body' & G' & O' & T' & M'). congruence.
    - eexists _, _. split; [reflexivity|].
      repeat split; try congruence.
      intros (rt' & w'' & body' & G' & O' & T' & M'). congruence. }
  destruct B as (b & s' & E & H1 & H2 & H3 & H4 & H5 & H6 & H7).
  exists b, s'. split; [exact E|]. split; [|auto 10].
  unfold consider, bind, lift. rewrite Hid.
  rewrite bool_decide_eq_false_2 by assumption.
  rewrite Htitle, E. reflexivity.
Qed.

Lemma seen_item_is_skipped_step (sent : gset str) (name : str) (it : item)
  (iid : str) :
  make_id (it_title it) (it_url it) = Ok iid -> iid ∈ sent ->
  forall s, consider sent name it s = (Ok None, s).
Proof.
  intros Hid Hseen s.
  unfold consider, bind, lift. rewrite Hid.
  now rewrite bool_decide_eq_true_2 by assumption.
Qed.

(** C2.  An item whose identity is in the set loaded at start is passed
    over at once: the step leaves the world and the log exactly as they
    were (no request is made, whatever the title), and the loop over
    the items of the source runs as if the item were not listed. *)
Theorem seen_item_is_skipped (sent : gset str) (name : str) (it : item) (iid : str) :
  make_id (it_title it) (it_url it) = Ok iid -> iid ∈ sent ->
  (forall s : st R, consider sent name it s = (Ok None, s)) /\
  (forall (before after : list item) (hits : list hit) (s : st R),
     scan sent name (before ++ it :: after) hits s
     = scan sent name (before ++ after) hits s).
Proof.
  intros Hid Hseen.
  pose proof (seen_item_is_skipped_step sent name it iid Hid Hseen) as C.
  split; [exact C|].
  induction before as [|x before IH]; intros after hits s; simpl.
  - now rewrite C.
  - destruct (consider sent name x s) as [[[h|]|e] s1]; auto.
Qed.

(** A listing made of seen items only costs nothing: no request, no
    hit, so a second run over unchanged sources notifies nothing. *)
Lemma scan_all_seen (sent : gset str) (name : str) (its : list item)
  (hits : list hit) s :
  Forall (fun it => exists iid, make_id (it_title it) (it_url it) = Ok iid /\
                                iid ∈ sent) its ->
  scan sent name its hits s = (Ok tt, hits, s).
Proof.
  induction 1 as [|it its (iid & Hid & Hseen) _ IH]; simpl; [reflexivity|].
  rewrite (seen_item_is_skipped_step sent name it iid Hid Hseen s).
  exact IH.
Qed.

(** An exception raised inside the item loop (the encoding error of
    [make_id]) ends the turn of that source but keeps the hits that
    were appended before it. *)
Lemma scan_keeps_hits (sent : gset str) (name : str) (its : list item)
  (hits : list hit) s r hits' s' :
  scan sent name its hits s = (r, hits', s') -> exists more, hits' = hits ++ more.
Proof.
  revert hits s. induction its as [|it its IH]; intros hits s E; simpl in E.
  - injection E as _ <- _. exists []. now rewrite app_nil_r.
  - destruct (consider sent name it s) as [[[h|]|e] s1].
    + destruct (IH _ _ E) as (more & ->). exists (h :: more).
      now rewrite <- app_assoc.
    + exact (IH _ _ E).
    + injection E as _ <- _. exists []. now rewrite app_nil_r.
Qed.

(** ** Listing pages *)

Lemma dict_set_fresh {V} (k : str * str) (v : V) d :
  k ∉ map fst d -> dict_set k v d = d ++ [(k, v)].
Proof.
  induction d as [|[k' v'] d IH]; simpl; intros H; [reflexivity|].
  rewrite not_elem_of_cons in H. destruct H as [Hk Hd].
  destruct (decide (k = k')); [contradiction|]. now rewrite IH.
Qed.

Lemma dict_set_same {V} (k : str * str) (v : V) d :
  (forall v', In (k, v') d -> v' = v) -> k ∈ map fst d -> dict_set k v d = d.
Proof.
  induction d as [|[k' v'] d IH]; simpl; intros Hv Hk.
  - inversion Hk.
  - destruct (decide (k = k')) as [->|Hne].
    + now rewrite (Hv v') by (left; reflexivity).
    + rewrite IH; [reflexivity|intros; apply Hv; now right|].
      apply elem_of_cons in Hk as [Hk|Hk]; [contradiction|assumption].
Qed.

(** Items made by [fetch_html] carry no summary, so the pair (title,
    url) is the whole item. *)
Lemma item_key_inj x y :
  it_summary x = [] -> it_summary y = [] -> item_key x = item_key y -> x = y.
Proof.
  destruct x, y. unfold item_key. simpl. intros -> -> [= -> ->]. reflexivity.
Qed.

Lemma uniq_fold out : forall d,
  (forall k v, In (k, v) d -> k = item_key v /\ it_summary v = []) ->
  Forall (fun x => it_summary x = []) out ->
  fold_left (fun d x => dict_set (item_key x) x d) out d
  = d ++ map (fun x => (item_key x, x)) (first_occurrences (map fst d) out).
Proof.
  induction out as [|x out IH]; intros d Hd Hout; simpl.
  - now rewrite app_nil_r.
  - inversion Hout as [|? ? Hx Hrest]; subst.
    destruct (bool_decide (item_key x ∈ map fst d)) eqn:B.
    + apply bool_decide_eq_true_1 in B.
      rewrite dict_set_same; [now apply IH| |assumption].
      intros v' Hin. destruct (Hd _ _ Hin) as [Hk Hs].
      symmetry. now apply item_key_inj.
    + apply bool_decide_eq_false_1 in B.
      rewrite dict_set_fresh by assumption.
      rewrite IH; [|intros k v Hin|assumption].
      * rewrite map_app. simpl. now rewrite <- app_assoc.
      * apply in_app_or in Hin as [Hin|[[= <- <-]|[]]]; auto.
Qed.

Lemma uniq_first_occurrences out :
  Forall (fun x => it_summary x = []) out ->
  map snd (uniq out) = first_occurrences [] out.
Proof.
  intros H. unfold uniq. rewrite uniq_fold; [|intros k v []|assumption].
  simpl. rewrite map_map. simpl. apply map_id.
Qed.

Lemma first_occurrences_nodup l : forall seen,
  NoDup (map item_key (first_occurrences seen l)) /\
  (forall x, In x (first_occurrences seen l) -> item_key x ∉ seen).
Proof.
  induction l as [|x l IH]; intros seen; simpl.
  - split; [constructor|intros ? []].
  - destruct (bool_decide (item_key x ∈ seen)) eqn:B; [apply IH|].
    apply bool_decide_eq_false_1 in B.
    destruct (IH (seen ++ [item_key x])) as [N D]. split.
    + simpl. constructor; [|exact N].
      intros Hin. apply list_elem_of_In, in_map_iff in Hin as (y & Ey & Hy).
      apply (D y Hy). rewrite Ey. apply elem_of_app. right. constructor.
    + intros y [<-|Hy]; [exact B|].
      intros Hs. apply (D y Hy). apply elem_of_app. now left.
Qed.

Lemma first_occurrences_sublist l : forall seen,
  sublist (first_occurrences seen l) l.
Proof.
  induction l as [|x l IH]; intros seen; simpl; [constructor|].
  destruct (bool_decide _); [apply sublist_cons|apply sublist_skip]; apply IH.
Qed.

Lemma first_occurrences_complete l : forall seen x,
  In x l -> item_key x ∈ seen \/
            exists y, In y (first_occurrences seen l) /\ item_key y = item_key x.
Proof.
  induction l as [|z l IH]; intros seen x; simpl; [intros []|].
  intros [->|Hin].
  - destruct (bool_decide (item_key x ∈ seen)) eqn:B.
    + left. now apply bool_decide_eq_true_1 in B.
    + right. exists x. split; [now left|reflexivity].
  - destruct (bool_decide (item_key z ∈ seen)) eqn:B.
    + now apply IH.
    + destruct (IH (seen ++ [item_key z]) x Hin) as [H|(y & Hy & E)].
      * apply elem_of_app in H as [H|H]; [now left|].
        apply list_elem_of_singleton in H. right. exists z. split; [now left|auto].
      * right. exists y. split; [now right|exact E].
Qed.

Lemma anchor_items_spec root l : forall out,
  anchor_items R root l = Ok out <->
  Forall2 (resolved R root) (List.filter has_text_and_href l) out.
Proof.
  induction l as [|a l IH]; intros out; simpl.
  - split; [intros [= <-]; constructor|intros H; inversion H; reflexivity].
  - unfold has_text_and_href at 1.
    destruct (nonempty (a_text a)); simpl; [|apply IH].
    destruct (nonempty (default [] (a_href a))); simpl; [|apply IH].
    destruct (urljoin R root (default [] (a_href a))) as [u|e] eqn:U.
    + destruct (anchor_items R root l) as [out'|e] eqn:A.
      * split.
        -- intros [= <-]. constructor; [repeat split; assumption|now apply IH].
        -- intros H. inversion H as [|? x ? xs (Ht & Hs & Hu) Hrest]; subst.
           apply IH in Hrest as [= <-]. destruct x. simpl in *.
           rewrite U in Hu. injection Hu as <-. now subst.
      * split; [discriminate|].
        intros H. inversion H as [|? x ? xs _ Hrest]; subst.
        apply IH in Hrest. discriminate.
    + split; [discriminate|].
      intros H. inversion H as [|? x ? xs (_ & _ & Hu) _]; subst.
      rewrite U in Hu. discriminate.
Qed.

Lemma resolved_no_summary root kept out :
  Forall2 (resolved R root) kept out -> Forall (fun x => it_summary x = []) out.
Proof.
  induction 1 as [|a x kept out (_ & Hs & _) _ IH]; constructor; assumption.
Qed.

Lemma slice_to_bound {A} (n : Z) (xs : list A) :
  (0 <= n)%Z -> (length (slice_to n xs) <= Z.to_nat n)%nat.
Proof.
  intros H. unfold slice_to.
  replace (0 <=? n)%Z with true by (symmetry; apply Z.leb_le; lia).
  rewrite length_firstn. lia.
Qed.

(** The listing fetch succeeds exactly in this way. *)
Lemma fetch_html_returns url sel base s r w' anchors out :
  requests_get R url (w s) = (Ok r, w') -> r_ok r = true ->
  soup_select R (r_text r) sel = Ok anchors ->
  Forall2 (resolved R (or_str base url))
    (List.filter has_text_and_href (slice_to (MAX_ITEMS_PER_SOURCE cfg) anchors)) out ->
  fetch_html cfg url sel base s
  = (Ok (first_occurrences [] out), {| w := w'; log := log s ++ [EGet url] |}).
Proof.
  intros G Hok Hsel Hout.
  unfold fetch_html, bind, http_get, lift, ret. rewrite G, Hok, Hsel.
  apply anchor_items_spec in Hout as Hitems. rewrite Hitems.
  rewrite uniq_first_occurrences; [reflexivity|].
  eapply resolved_no_summary, Hout.
Qed.

(** C7.  When the listing fetch returns, the page was received with a
    success status; of the anchors selected (the slice [[:MAX]] of the
    selector's matches) those without text or without href are left
    out, every other one gives an item with the anchor text as title
    and the href joined to the base (the source url when there is no
    base); the result holds the first occurrence of each (title, url)
    pair, in the order of the page, and no pair twice. *)
Theorem fetch_html_spec (url sel : str) (base : option str) (s s' : st R)
  (items : list item) :
  fetch_html cfg url sel base s = (Ok items, s') ->
  exists r anchors out,
    requests_get R url (w s) = (Ok r, w s') /\ r_ok r = true /\
    soup_select R (r_text r) sel = Ok anchors /\
    Forall2 (resolved R (or_str base url))
      (List.filter has_text_and_href (slice_to (MAX_ITEMS_PER_SOURCE cfg) anchors))
      out /\
    items = first_occurrences [] out /\
    NoDup (map item_key items) /\ sublist items out /\
    (forall x, In x out -> In x items) /\
    ((0 <= MAX_ITEMS_PER_SOURCE cfg)%Z ->
     (length items <= Z.to_nat (MAX_ITEMS_PER_SOURCE cfg))%nat).
Proof.
  unfold fetch_html, bind, http_get, lift, ret, raise. intros E.
  destruct (requests_get R url (w s)) as [[r|e] w1] eqn:G; [|discriminate].
  destruct (r_ok r) eqn:Hok; [|discriminate].
  destruct (soup_select R (r_text r) sel) as [anchors|e] eqn:Hsel; [|discriminate].
  destruct (anchor_items R (or_str base url)
              (slice_to (MAX_ITEMS_PER_SOURCE cfg) anchors)) as [out|e] eqn:A;
    [|discriminate].
  injection E as <- <-. simpl.
  apply anchor_items_spec in A.
  pose proof (resolved_no_summary _ _ _ A) as Hsum.
  rewrite uniq_first_occurrences by assumption.
  exists r, anchors, out. repeat split; try assumption.
  - apply first_occurrences_nodup.
  - apply first_occurrences_sublist.
  - intros x Hx.
    destruct (first_occurrences_complete out [] x Hx) as [H|(y & Hy & Ey)];
      [inversion H|].
    assert (Hyo : In y out).
    { apply list_elem_of_In. eapply elem_of_sublist;
        [apply list_elem_of_In, Hy|apply first_occurrences_sublist]. }
    rewrite List.Forall_forall in Hsum.
    assert (y = x) as <- by (apply item_key_inj; auto).
    exact Hy.
  - intros Hmax.
    pose proof (sublist_length _ _ (first_occurrences_sublist out [])) as L1.
    pose proof (Forall2_length _ _ _ A) as L2.
    pose proof (List.filter_length_le has_text_and_href
                  (slice_to (MAX_ITEMS_PER_SOURCE cfg) anchors)) as L3.
    pose proof (slice_to_bound _ anchors Hmax) as L4. lia.
Qed.

(** ** The run as a whole *)

Lemma load_state_file fs r fs1 :
  load_state fs = (r, fs1) -> state_file fs1 = state_file fs.
Proof.
  unfold load_state. intros H.
  assert (fs1 = ensure_dir fs) as ->
    by (destruct (state_file (ensure_dir fs)) as [[|d]|]; now injection H).
  reflexivity.
Qed.

Lemma render_all_positional (top : list hit) :
  top <> [] -> render_all textwrap_shorten_3 top = Raise TypeError.
Proof. destruct top; [contradiction|reflexivity]. Qed.

(** C3.  A run that ends its polling with no hit sends nothing and
    writes nothing: the state file is the one found at start (or still
    absent), and whatever the run added to the log is neither a
    notification nor a write of the state.  This holds however line 165
    behaves. *)
Theorem no_hit_no_commit (shorten : str -> Z -> str -> result str)
  (fs : fsys) (s : st R) :
  found (main_with cfg shorten fs s) = [] ->
  state_file (files (main_with cfg shorten fs s)) = state_file fs /\
  exists evs,
    log (final (main_with cfg shorten fs s)) = log s ++ evs /\
    forallb (fun e => negb (is_post e) && negb (is_write e)) evs = true.
Proof.
  unfold main_with.
  destruct (load_state fs) as [[state0|e] fs1] eqn:L;
    pose proof (load_state_file _ _ _ L) as F.
  - destruct (poll_sources cfg _ SOURCES [] s) as [hits s1] eqn:P.
    pose proof (polled_poll_sources _ _ _ _ _ _ P) as Q.
    destruct hits as [|h hits].
    + intros _. cbn [files final]. split; [exact F|].
      apply (polled_trans s s1); [exact Q|]. now apply polled_emit.
    + destruct (render_all shorten (firstn 10 (h :: hits))) as [lines|e].
      * destruct (push_all cfg _ s1) as [u s2]. cbn [found]. discriminate.
      * cbn [found]. discriminate.
  - intros _. cbn [files final]. split; [exact F|]. apply polled_refl.
Qed.

(** C1 on the code as it is.  Every run that finds a hit stops at line
    165 with the TypeError of the three-argument call: nothing has been
    sent, nothing is written, and the state file is as it was, so the
    identities of the batch are not recorded. *)
Theorem hit_ends_in_type_error (fs : fsys) (s : st R) :
  found (main cfg fs s) <> [] ->
  status (main cfg fs s) = Raise TypeError /\
  state_file (files (main cfg fs s)) = state_file fs /\
  exists evs,
    log (final (main cfg fs s)) = log s ++ evs /\
    forallb (fun e => negb (is_post e) && negb (is_write e)) evs = true.
Proof.
  unfold main, main_with.
  destruct (load_state fs) as [[state0|e] fs1] eqn:L;
    pose proof (load_state_file _ _ _ L) as F.
  - destruct (poll_sources cfg _ SOURCES [] s) as [hits s1] eqn:P.
    pose proof (polled_poll_sources _ _ _ _ _ _ P) as Q.
    destruct hits as [|h hits]; [cbn [found]; intros H; now contradiction H|].
    intros _. rewrite render_all_positional by discriminate.
    cbn [status files final]. auto.
  - cbn [found]. intros H. now contradiction H.
Qed.



(** What lines 166-171 do once line 165 has produced its lines: the
    state written holds the identities loaded at start and those of the
    batch, nothing else, whatever became of the pushes. *)
Lemma commit_after_render (shorten : str -> Z -> str -> result str)
  (fs fs1 : fsys) (s s1 : st R) (state0 : state) (hits : list hit)
  (lines : list str) :
  load_state fs = (Ok state0, fs1) ->
  poll_sources cfg (list_to_set (default [] (sent_ids state0))) SOURCES [] s
  = (hits, s1) ->
  hits <> [] ->
  render_all shorten (firstn 10 hits) = Ok lines ->
  status (main_with cfg shorten fs s) = Ok tt /\
  exists ids,
    state_file (files (main_with cfg shorten fs s))
    = Some (Json {| sent_ids := Some ids; other_keys := other_keys state0 |}) /\
    NoDup ids /\
    forall i, i ∈ ids <->
              i ∈ default [] (sent_ids state0) \/ i ∈ map h_id (firstn 10 hits).
Proof.
  intros L P Hne Hr. unfold main_with. rewrite L, P.
  destruct hits as [|h hits]; [contradiction|]. rewrite Hr.
  destruct (push_all cfg _ s1) as [u s2]. cbn [status files].
  split; [reflexivity|]. eexists. split; [reflexivity|].
  split; [apply NoDup_elements|].
  intros i. rewrite elem_of_elements, elem_of_union, !elem_of_list_to_set.
  reflexivity.
Qed.

End Properties.

(** ** The sample runtime at work *)

Lemma seen_item_is_skipped_witness :
  consider ({[ tax_id ]} : gset str) (s_name rss_source) tax_item demo_s0
  = (Ok None, demo_s0).
Proof.
  assert (H1 : make_id (it_title tax_item) (it_url tax_item) = Ok tax_id)
    by (vm_compute; reflexivity).
  assert (H2 : tax_id ∈ ({[ tax_id ]} : gset str))
    by (apply elem_of_singleton; reflexivity).
  exact (proj1 (seen_item_is_skipped demo {[ tax_id ]} (s_name rss_source)
                  tax_item tax_id H1 H2) demo_s0).
Defined.

Lemma no_hit_no_commit_witness :
  found (main_with demo_cfg shorten_kw fs_seen demo_s0) = [] /\
  state_file (files (main_with demo_cfg shorten_kw fs_seen demo_s0))
  = state_file fs_seen.
Proof.
  assert (H : found (main_with demo_cfg shorten_kw fs_seen demo_s0) = [])
    by (vm_compute; reflexivity).
  split; [exact H|].
  exact (proj1 (no_hit_no_commit demo demo_cfg shorten_kw fs_seen demo_s0 H)).
Defined.

Lemma hit_ends_in_type_error_witness :
  found (main demo_cfg fs_empty demo_s0) <> [] /\
  status (main demo_cfg fs_empty demo_s0) = Raise TypeError /\
  state_file (files (main demo_cfg fs_empty demo_s0)) = state_file fs_empty.
Proof.
  assert (H : found (main demo_cfg fs_empty demo_s0) <> [])
    by (vm_compute; discriminate).
  split; [exact H|].
  destruct (hit_ends_in_type_error demo demo_cfg fs_empty demo_s0 H) as (S & F & _).
  split; [exact S|exact F].
Defined.


Lemma fetch_html_spec_witness :
  fetch_html demo_cfg listing_url (lit "div.bbsList li a")
    (Some (lit "https://www.nts.go.kr")) demo_s0
  = (Ok listing_items, Build_st demo 1%nat [EGet listing_url]) /\
  NoDup (map item_key listing_items).
Proof.
  assert (H : fetch_html demo_cfg listing_url (lit "div.bbsList li a")
                (Some (lit "https://www.nts.go.kr")) demo_s0
              = (Ok listing_items, Build_st demo 1%nat [EGet listing_url]))
    by (vm_compute; reflexivity).
  split; [exact H|].
  destruct (fetch_html_spec demo demo_cfg _ _ _ _ _ _ H)
    as (r & anchors & out & _ & _ & _ & _ & _ & N & _).
  exact N.
Defined.

Lemma body_check_fails_closed_witness :
  (exists s',
    consider (∅ : gset str) (s_name rss_source)
      {| it_title := lit "날씨"; it_url := lit "https://www.nts.go.kr/c";
         it_summary := [] |} demo_s0
    = (Ok None, s')) /\
  consider (∅ : gset str) (s_name rss_source) page_item demo_page_s0
  = (Ok (Some {| h_id := id_of (it_title page_item) (it_url page_item);
                 h_title := it_title page_item; h_url := it_url page_item;
                 h_src := s_name rss_source |}),
     Build_st demo_page 1%nat [EGet page_url]).
Proof.
  split.
  - set (it := {| it_title := lit "날씨"; it_url := lit "https://www.nts.go.kr/c";
                  it_summary := [] |}).
    assert (H1 : make_id (it_title it) (it_url it)
                 = Ok (id_of (it_title it) (it_url it))) by (vm_compute; reflexivity).
    assert (H2 : id_of (it_title it) (it_url it) ∉ (∅ : gset str))
      by apply not_elem_of_empty.
    assert (H3 : match_keywords demo (it_title it) = false) by (vm_compute; reflexivity).
    destruct (body_check_fails_closed demo ∅ (s_name rss_source) it _ demo_s0 H1 H2 H3)
      as (b & s' & _ & C & Hraise & _).
    assert (Hb : b = false).
    { apply (Hraise (LibraryError (lit "ConnectionError")) 1%nat).
      vm_compute. reflexivity. }
    exists s'. rewrite C, Hb. reflexivity.
  - assert (H1 : make_id (it_title page_item) (it_url page_item)
                 = Ok (id_of (it_title page_item) (it_url page_item)))
      by (vm_compute; reflexivity).
    assert (H2 : id_of (it_title page_item) (it_url page_item) ∉ (∅ : gset str))
      by apply not_elem_of_empty.
    assert (H3 : match_keywords demo_page (it_title page_item) = false)
      by (vm_compute; reflexivity).
    destruct (body_check_fails_closed demo_page ∅ (s_name rss_source) page_item _
                demo_page_s0 H1 H2 H3)
      as (b & s' & _ & C & _ & _ & _ & Hiff & _ & Hw & Hl).
    assert (Hb : b = true).
    { apply (proj2 Hiff).
      exists {| r_ok := true; r_text := lit "부가세 신고 안내" |}, 1%nat,
             (lit "부가세 신고 안내").
      split; [vm_compute; reflexivity|]. split; [reflexivity|].
      split; vm_compute; reflexivity. }
    rewrite C, Hb. destruct s' as [w' l']. cbn [w log] in Hw, Hl.
    assert (Ew : w' = 1%nat) by (rewrite Hw; vm_compute; reflexivity).
    assert (El : l' = [EGet page_url]) by (rewrite Hl; reflexivity).
    rewrite Ew, El. reflexivity.
Defined.

Lemma source_failure_is_local_witness :
  let p := poll_sources demo_cfg (∅ : gset str) [rss_source] [] demo_s0 in
  let q := fetch_source demo_cfg notice_source (snd p) in
  let e := LibraryError (lit "ConnectionError") in
  fst q = Raise e /\
  poll_sources demo_cfg ∅ ([rss_source] ++ notice_source :: [rss_source]) [] demo_s0
  = poll_sources demo_cfg ∅ [rss_source] (fst p)
      (emit (EPrint (SourceError (s_name notice_source) e)) (snd q)).
Proof.
  intros p q e.
  assert (H1 : poll_sources demo_cfg (∅ : gset str) [rss_source] [] demo_s0
               = (fst p, snd p)) by apply surjective_pairing.
  assert (H2 : fetch_source demo_cfg notice_source (snd p) = (Raise e, snd q))
    by (vm_compute; reflexivity).
  split; [vm_compute; reflexivity|].
  exact (proj2 (source_failure_is_local demo demo_cfg ∅ [rss_source] [rss_source]
                  notice_source [] (fst p) demo_s0 (snd p) (snd q) e H1 H2)).
Defined.

(** With line 165 as it was meant, the same run commits the two
    identities although every push failed. *)
Example commit_despite_failed_push :
  let o := main_with demo_cfg shorten_kw fs_empty demo_s0 in
  status o = Ok tt /\ length (List.filter is_post (log (final o))) = 1%nat /\
  In (EPrint (PushFailed (LibraryError (lit "Timeout")))) (log (final o)) /\
  exists ids, state_file (files o)
              = Some (Json {| sent_ids := Some ids; other_keys := [] |}) /\
              forall i, In i ids <-> i = tax_id \/
                                     i = id_of (lit "세법 해석 사례")
                                               (lit "https://www.nts.go.kr/a").
Proof.
  split; [vm_compute; reflexivity|]. split; [vm_compute; reflexivity|].
  split; [vm_compute; tauto|].
  eexists. split; [vm_compute; reflexivity|].
  intros i. vm_compute.
  split; [intros [<-|[<-|[]]]; auto|intros [->| ->]; auto].
Qed.

(** The scenario of the specification: one feed with a matching title
    and a non-matching one.  The second item is looked up and dropped,
    the first is the only hit, under the identity of its title/url. *)
Example polling_scenario :
  poll_sources demo_cfg (∅ : gset str) [rss_source] [] demo_s0
  = ([ {| h_id := tax_id; h_title := it_title tax_item;
          h_url := it_url tax_item; h_src := s_name rss_source |} ],
     Build_st demo 2%nat [EFeed feed_url; EGet (lit "https://x/2")]).
Proof. vm_compute. reflexivity. Qed.

(** The body of 1500 characters in a whole run, line 165 as it was
    meant: the only hit is [hit_1500], its digest is [body_1500], and
    the two pushes go out under the bare label and under "(2)". *)
Example titles_in_a_run :
  let o := main_with demo_cfg shorten_kw fs_empty demo_1500_s0 in
  found o = [hit_1500] /\
  render_all shorten_kw (found o) = Ok [body_1500] /\
  post_titles (log (final o))
  = [lit "2026-11-04 세법/공지 업데이트"; lit "2026-11-04 세법/공지 업데이트 (2)"].
Proof. vm_compute. repeat split; reflexivity. Qed.

(** * Further properties *)

(** ** Keyword matching *)

Lemma is_prefix_spec p : forall s,
  is_prefix p s = true <-> exists post, s = p ++ post.
Proof.
  induction p as [|a p IH]; intros s; simpl.
  - split; [intros _; now exists s|reflexivity].
  - destruct s as [|b s]; [split; [discriminate|intros (post & E); discriminate E]|].
    rewrite andb_true_iff, N.eqb_eq, IH. split.
    + intros [-> (post & ->)]. now exists post.
    + intros (post & [= -> ->]). split; [reflexivity|now exists post].
Qed.

Lemma contains_spec needle : forall hay,
  contains hay needle = true <-> exists pre post, hay = pre ++ needle ++ post.
Proof.
  induction hay as [|c hay IH].
  - simpl. rewrite orb_false_r, is_prefix_spec. split.
    + intros (post & E). now exists [], post.
    + intros (pre & post & E). destruct pre; [now exists post|discriminate E].
  - cbn [contains]. rewrite orb_true_iff, is_prefix_spec, IH. split.
    + intros [(post & E)|(pre & post & ->)].
      * now exists [], post.
      * now exists (c :: pre), post.
    + intros (pre & post & E). destruct pre as [|x pre].
      * left. now exists post.
      * right. injection E as -> ->. now exists pre, post.
Qed.

(** X1.  A text matches exactly when it is not empty and its lower-case
    form contains, somewhere, the lower-case form of one of the
    keywords: a plain substring test, so a keyword inside a longer
    word counts, and the empty text never matches. *)
Theorem match_keywords_spec (R : runtime) (text : str) :
  match_keywords R text = true <->
  text <> [] /\
  exists kw pre post,
    In kw KEYWORDS /\ lower R text = pre ++ lower R kw ++ post.
Proof.
  unfold match_keywords. rewrite andb_true_iff, existsb_exists. split.
  - intros [Hne (kw & Hin & Hc)]. split; [now destruct text|].
    apply contains_spec in Hc as (pre & post & E). now exists kw, pre, post.
  - intros [Hne (kw & pre & post & Hin & E)]. split; [now destruct text|].
    exists kw. split; [exact Hin|]. apply contains_spec. now exists pre, post.
Qed.

(** ** Markup removal *)

Lemma drop_tags_tagless a : forall rest,
  tagless a = true -> drop_tags None (a ++ rest) = a ++ drop_tags None rest.
Proof.
  induction a as [|c a IH]; intros rest H; simpl in *; [reflexivity|].
  apply andb_prop in H as [Hc Ha]. apply negb_true_iff in Hc. rewrite Hc.
  now rewrite IH.
Qed.

Lemma drop_tags_close t : forall buf b,
  forallb (fun c => negb (c =? 0x3C) && negb (c =? 0x3E)) t = true ->
  (2 <= length buf + length t)%nat ->
  drop_tags (Some buf) (t ++ [0x3E] ++ b) = drop_tags None b.
Proof.
  induction t as [|c t IH]; intros buf b Ht Hlen; simpl in *.
  - replace (1 <? length buf)%nat with true
      by (symmetry; apply Nat.ltb_lt; lia). reflexivity.
  - apply andb_prop in Ht as [Hc Ht]. apply andb_prop in Hc as [H1 H2].
    apply negb_true_iff in H1, H2. rewrite H1, H2. simpl.
    apply IH; [exact Ht|]. rewrite length_app. simpl. lia.
Qed.

Lemma drop_tags_sublist s : forall pending,
  sublist (drop_tags pending s) (default [] pending ++ s).
Proof.
  induction s as [|c s IH]; intros [buf|]; simpl.
  - now rewrite app_nil_r.
  - constructor.
  - destruct (c =? 0x3C).
    + apply sublist_app; [reflexivity|]. exact (IH (Some [c])).
    + destruct ((c =? 0x3E) && (1 <? length buf)%nat).
      * apply sublist_inserts_l, sublist_cons. exact (IH None).
      * specialize (IH (Some (buf ++ [c]))). simpl in IH.
        now rewrite <- app_assoc in IH.
  - destruct (c =? 0x3C).
    + exact (IH (Some [c])).
    + apply sublist_skip. exact (IH None).
Qed.

Lemma strip_sublist s : sublist (strip s) s.
Proof.
  destruct (strip_decompose s) as (a & b & _ & _ & E). rewrite E at 2.
  apply sublist_inserts_l, sublist_inserts_r. reflexivity.
Qed.

(** X2.  A tag, "<", then at least one character other than "<" and
    ">", then ">", is taken out of the text, and the text before it,
    when it has no "<", is kept as it is. *)
Theorem drop_tags_removes_tag (a t b : str) :
  tagless a = true -> t <> [] ->
  forallb (fun c => negb (c =? 0x3C) && negb (c =? 0x3E)) t = true ->
  drop_tags None (a ++ [0x3C] ++ t ++ [0x3E] ++ b) = a ++ drop_tags None b.
Proof.
  intros Ha Hne Ht. rewrite drop_tags_tagless by exact Ha. f_equal.
  simpl. apply (drop_tags_close t [0x3C] b Ht).
  destruct t; [contradiction|simpl; lia].
Qed.

Lemma drop_tags_removes_tag_witness :
  drop_tags None (lit "요약 <b>세법</b> 개정") = lit "요약 세법 개정".
Proof.
  transitivity (lit "요약 " ++ drop_tags None (lit "세법</b> 개정")).
  - apply (drop_tags_removes_tag (lit "요약 ") (lit "b") (lit "세법</b> 개정"));
      [vm_compute; reflexivity|discriminate|vm_compute; reflexivity].
  - vm_compute. reflexivity.
Defined.

(** X3.  [strip_html] never invents text: what it returns is made of
    characters of its argument, in their order, has no white space at
    either end, and a text without "<" is only trimmed. *)
Theorem strip_html_conservative (s : str) :
  sublist (strip_html (Some s)) s /\
  strip (strip_html (Some s)) = strip_html (Some s) /\
  (tagless s = true -> strip_html (Some s) = strip s).
Proof.
  unfold strip_html. simpl. split; [|split].
  - etransitivity; [apply strip_sublist|]. exact (drop_tags_sublist s None).
  - apply strip_idem.
  - intros H. rewrite <- (app_nil_r s) at 1.
    rewrite drop_tags_tagless by exact H. simpl. now rewrite app_nil_r.
Qed.

(** ** Chunk sizes and titles *)

Lemma lstrip_by_idem p s : lstrip_by p (lstrip_by p s) = lstrip_by p s.
Proof.
  induction s as [|c s IH]; simpl; [reflexivity|].
  destruct (p c) eqn:Hc; [assumption|]. simpl. now rewrite Hc.
Qed.

Lemma rstrip_idem s : rstrip (rstrip s) = rstrip s.
Proof.
  unfold rstrip, rstrip_by. now rewrite rev_involutive, lstrip_by_idem.
Qed.

Lemma len_rstrip s : (len (rstrip s) <= len s)%Z.
Proof.
  destruct (rstrip_by_prefix isspace s) as (b & _ & E).
  fold (rstrip s) in E. rewrite E at 2. rewrite len_app.
  pose proof (len_nonneg b). lia.
Qed.

(** What the loop of [chunk] keeps true of the chunk under way: it is
    empty, or ends with a line feed and is either one line of the body
    or within the budget. *)
Definition cur_fits (maxlen : Z) (lines : list str) (cur : str) : Prop :=
  cur = [] \/
  exists x, cur = x ++ [LF] /\ (In x lines \/ (len cur <= maxlen)%Z).

Lemma cur_fits_closed maxlen lines cur :
  cur <> [] -> cur_fits maxlen lines cur -> chunk_fits maxlen lines (rstrip cur).
Proof.
  intros Hne [->|(x & -> & [Hin|Hlen])]; [contradiction| |].
  - right. exists x. split; [exact Hin|apply rstrip_line].
  - left. rewrite rstrip_line. pose proof (len_rstrip x).
    rewrite len_app in Hlen. change (len [LF]) with 1%Z in Hlen. lia.
Qed.

Lemma chunk_loop_fits_all maxlen all lines : forall cur out cur' out',
  incl lines all -> cur_fits maxlen all cur ->
  Forall (chunk_fits maxlen all) out ->
  chunk_loop maxlen lines cur out = (cur', out') ->
  cur_fits maxlen all cur' /\ Forall (chunk_fits maxlen all) out'.
Proof.
  induction lines as [|line rest IH]; intros cur out cur' out' Hin Hc Ho E;
    simpl in E.
  - injection E as <- <-. split; assumption.
  - assert (Hl : In line all) by (apply Hin; now left).
    assert (Hr : incl rest all) by (intros x Hx; apply Hin; now right).
    destruct ((maxlen <? len cur + len (line ++ [LF]))%Z && nonempty cur) eqn:C.
    + apply andb_prop in C as [_ C2].
      apply (IH _ _ _ _ Hr) in E; [exact E| |].
      * right. exists line. split; [reflexivity|now left].
      * apply Forall_app. split; [exact Ho|]. constructor; [|constructor].
        apply cur_fits_closed; [now destruct cur|exact Hc].
    + apply (IH _ _ _ _ Hr) in E; [exact E| |exact Ho].
      right. apply andb_false_iff in C as [C|C].
      * exists (cur ++ line). rewrite <- app_assoc. split; [reflexivity|].
        right. apply Z.ltb_ge in C. rewrite len_app. exact C.
      * destruct cur; [|discriminate]. exists line.
        split; [reflexivity|now left].
Qed.

Lemma chunk_loop_stripped maxlen lines : forall cur out cur' out',
  Forall (fun c => rstrip c = c) out ->
  chunk_loop maxlen lines cur out = (cur', out') ->
  Forall (fun c => rstrip c = c) out'.
Proof.
  induction lines as [|line rest IH]; intros cur out cur' out' Ho E; simpl in E.
  - now injection E as _ <-.
  - destruct ((maxlen <? len cur + len (line ++ [LF]))%Z && nonempty cur).
    + apply IH in E; [exact E|]. apply Forall_app. split; [exact Ho|].
      constructor; [apply rstrip_idem|constructor].
    + now apply IH in E.
Qed.

(** X4.  No chunk ends in white space and [chunk] never returns an
    empty list; for a body that is not empty, every chunk is shorter
    than the budget unless it is one single line of the body (trimmed
    on the right), which is the only way a chunk can exceed it. *)
Theorem chunk_sizes (s : str) (maxlen : Z) :
  chunk s maxlen <> [] /\
  Forall (fun c => rstrip c = c) (chunk s maxlen) /\
  (s <> [] -> Forall (chunk_fits maxlen (splitlines s)) (chunk s maxlen)).
Proof.
  unfold chunk.
  destruct (chunk_loop maxlen (splitlines s) [] []) as [cur out] eqn:E.
  pose proof (chunk_loop_stripped _ _ _ _ _ _ (List.Forall_nil _) E) as S.
  destruct (chunk_loop_fits_all maxlen (splitlines s) _ _ _ _ _
              (incl_refl _) (or_introl eq_refl) (List.Forall_nil _) E) as [Hc Ho].
  assert (S' : Forall (fun c => rstrip c = c)
                 (if nonempty cur then out ++ [rstrip cur] else out)).
  { destruct (nonempty cur); [|exact S]. apply Forall_app. split; [exact S|].
    constructor; [apply rstrip_idem|constructor]. }
  assert (F' : Forall (chunk_fits maxlen (splitlines s))
                 (if nonempty cur then out ++ [rstrip cur] else out)).
  { destruct (nonempty cur) eqn:N; [|exact Ho]. apply Forall_app.
    split; [exact Ho|]. constructor; [|constructor].
    apply cur_fits_closed; [now destruct cur|exact Hc]. }
  destruct (if nonempty cur then out ++ [rstrip cur] else out) as [|c l] eqn:O.
  - split; [discriminate|]. split.
    + constructor; [reflexivity|constructor].
    + intros Hs. exfalso. apply splitlines_nonempty in Hs.
      destruct (chunk_loop_groups maxlen (splitlines s) [] [])
        as (cg & og & E' & _ & _ & _ & _ & H4);
        [intros l []|constructor|constructor|].
      change (chunk_loop maxlen (splitlines s) (flat []) (map chunk_of []))
        with (chunk_loop maxlen (splitlines s) [] []) in E'.
      rewrite E in E'. injection E' as -> _.
      rewrite nonempty_flat in O. specialize (H4 Hs).
      destruct cg; [contradiction|]. now destruct out.
  - split; [discriminate|]. split; [exact S'|]. intros _. exact F'.
Qed.

Lemma parse_decimal_fuel fuel : forall n acc,
  (N.to_nat n < fuel)%nat ->
  fold_left (fun v c => 10 * v + (c - 0x30)) (decimal_fuel fuel n acc) 0
  = fold_left (fun v c => 10 * v + (c - 0x30)) acc n.
Proof.
  induction fuel as [|fuel IH]; intros n acc H; [lia|].
  cbn [decimal_fuel]. destruct (N.ltb_spec n 10) as [Hn|Hn].
  - cbn [fold_left]. f_equal. cbv beta. unfold digit.
    rewrite N.mod_small by exact Hn. lia.
  - rewrite IH.
    + cbn [fold_left]. f_equal. cbv beta. unfold digit.
      pose proof (N.div_mod n 10 ltac:(discriminate)) as D.
      revert D. generalize (n / 10) (n mod 10). intros q r D. lia.
    + assert (n / 10 < n) by (apply N.div_lt; lia). lia.
Qed.

(** Numerals read back as the number they were made of. *)
Lemma parse_str_of_nat n : parse_decimal (str_of_nat n) = N.of_nat n.
Proof.
  unfold parse_decimal, str_of_nat. rewrite parse_decimal_fuel; [reflexivity|].
  rewrite Nat2N.id. lia.
Qed.

Lemma chunk_title_inj day body i j :
  chunk_title day body i = chunk_title day body j -> i = j.
Proof.
  unfold chunk_title. intros E. apply app_inv_head, app_inv_head in E.
  destruct ((i =? 1)%nat && (len body <=? 1500)%Z) eqn:Ci,
           ((j =? 1)%nat && (len body <=? 1500)%Z) eqn:Cj.
  - apply andb_prop in Ci as [Ci _], Cj as [Cj _].
    apply Nat.eqb_eq in Ci, Cj. congruence.
  - discriminate E.
  - discriminate E.
  - apply app_inv_head, app_inv_tail in E.
    apply (f_equal parse_decimal) in E. rewrite !parse_str_of_nat in E. lia.
Qed.

Lemma enumerate_fst {A} (xs : list A) : forall i,
  map fst (enumerate i xs) = seq i (length xs).
Proof. induction xs as [|x xs IH]; intros i; simpl; [reflexivity|now rewrite IH]. Qed.

Lemma enumerate_snd {A} (xs : list A) : forall i, map snd (enumerate i xs) = xs.
Proof. induction xs as [|x xs IH]; intros i; simpl; [reflexivity|now rewrite IH]. Qed.

Lemma NoDup_map_inj {A B} (f : A -> B) (l : list A) :
  (forall x y, f x = f y -> x = y) -> NoDup l -> NoDup (map f l).
Proof.
  intros Hf. induction 1 as [|x l Hx _ IH]; simpl; constructor; [|exact IH].
  intros Hin. apply Hx. apply list_elem_of_In, in_map_iff in Hin as (y & E & Hy).
  apply Hf in E as <-. now apply list_elem_of_In.
Qed.

(** X5.  The notifications of a run are its chunks, one each and in
    order, and no two of them bear the same title, whatever the length
    of the body. *)
Theorem notifications_distinct (day body : str) :
  map snd (notifications day body) = chunk body 1500 /\
  NoDup (map fst (notifications day body)).
Proof.
  unfold notifications. rewrite !map_map. split.
  - rewrite <- (enumerate_snd (chunk body 1500) 1) at 2.
    apply map_ext. now intros [i ch].
  - rewrite (map_ext _ (fun p => chunk_title day body (fst p)))
      by (now intros [i ch]).
    rewrite <- (map_map fst (chunk_title day body)), enumerate_fst.
    apply NoDup_map_inj; [intros i j; apply chunk_title_inj|apply NoDup_seq].
Qed.

(** X20.  Lines 167-168 taken by themselves: when the body is cut in
    several chunks, the first title is the bare label, without its
    "(1)", exactly when the body is 1500 characters long.  The title
    test compares [len(body)] with the budget, while [chunk] counts one
    more character for each line. *)
Theorem bare_first_title_at_1500 (day body : str) :
  (1 < length (notifications day body))%nat ->
  hd [] (map fst (notifications day body)) = day ++ lit " 세법/공지 업데이트"
  <-> len body = 1500%Z.
Proof.
  unfold notifications. rewrite length_map, map_map.
  rewrite <- (length_map fst), enumerate_fst, length_seq.
  intros H.
  assert (G : (1500 <= len body)%Z).
  { destruct (Z.lt_ge_cases (len body) 1500) as [L|L]; [|exact L].
    apply (chunk_small body 1500) in L. rewrite L in H.
    exfalso. now apply Nat.lt_irrefl in H. }
  destruct (chunk body 1500) as [|c1 r]; [inversion H|].
  cbn [enumerate map hd fst]. unfold chunk_title.
  change ((1 =? 1)%nat) with true. cbn [andb].
  split.
  - destruct (Z.leb_spec (len body) 1500) as [L|L].
    + intros _. now apply Z.le_antisymm.
    + intros E. rewrite <- (app_nil_r (lit " 세법/공지 업데이트")) in E at 2.
      apply app_inv_head, app_inv_head in E. discriminate E.
  - intros E. rewrite E. change (1500 <=? 1500)%Z with true.
    now rewrite app_nil_r.
Qed.

(** ** UTF-8 *)

Ltac divmod_lia := zify; Z.to_euclidean_division_equations; lia.

Lemma decode_encode_cp c b rest :
  encode_cp c = Some b -> utf8_decode (b ++ rest) = c :: utf8_decode rest.
Proof.
  unfold encode_cp.
  destruct (N.ltb_spec c 0x80) as [H1|H1].
  { intros [= <-]. cbn [app utf8_decode].
    destruct (N.ltb_spec c 0x80); [reflexivity|lia]. }
  destruct (N.ltb_spec c 0x800) as [H2|H2].
  { intros [= <-]. cbn [app utf8_decode].
    destruct (N.ltb_spec (0xC0 + c / 64) 0x80); [divmod_lia|].
    destruct (N.ltb_spec (0xC0 + c / 64) 0xE0); [|divmod_lia].
    f_equal. divmod_lia. }
  destruct (N.ltb_spec c 0x10000) as [H3|H3].
  { destruct ((0xD800 <=? c) && (c <=? 0xDFFF)); [discriminate|].
    intros [= <-]. cbn [app utf8_decode].
    destruct (N.ltb_spec (0xE0 + c / 4096) 0x80); [divmod_lia|].
    destruct (N.ltb_spec (0xE0 + c / 4096) 0xE0); [divmod_lia|].
    destruct (N.ltb_spec (0xE0 + c / 4096) 0xF0); [|divmod_lia].
    f_equal. divmod_lia. }
  destruct (N.ltb_spec c 0x110000) as [H4|H4]; [|discriminate].
  intros [= <-]. cbn [app utf8_decode].
  destruct (N.ltb_spec (0xF0 + c / 262144) 0x80); [divmod_lia|].
  destruct (N.ltb_spec (0xF0 + c / 262144) 0xE0); [divmod_lia|].
  destruct (N.ltb_spec (0xF0 + c / 262144) 0xF0); [divmod_lia|].
  f_equal. divmod_lia.
Qed.

Lemma decode_encode_utf8 s : forall b,
  encode_utf8 s = Some b -> utf8_decode b = s.
Proof.
  induction s as [|c s IH]; intros b; simpl.
  - now intros [= <-].
  - destruct (encode_cp c) as [bc|] eqn:Ec; [|discriminate].
    destruct (encode_utf8 s) as [bs|] eqn:Es; [|discriminate].
    intros [= <-]. rewrite (decode_encode_cp _ _ _ Ec). f_equal. now apply IH.
Qed.

(** X6.  The bytes that [make_id] hashes determine the text they were
    made of: two pairs get the same bytes only if trimmed title, "|"
    and trimmed url run together give the same text, so apart from
    that (and from a collision of the digest prefix) identities of
    different items differ. *)
Theorem id_bytes_injective (title url title' url' : str) (b : bytes) :
  encode_utf8 (id_text title url) = Some b ->
  encode_utf8 (id_text title' url') = Some b ->
  id_text title url = id_text title' url'.
Proof.
  intros E E'. apply decode_encode_utf8 in E, E'. congruence.
Qed.

(** ** Fetching *)

Section More.

Context (R : runtime) (cfg : config).
Implicit Types s : st R.

(** X7.  No retry: a listing fetch and a second look make exactly one
    request each, whatever comes back, and a feed fetch makes one, or
    none at all when feedparser could not be imported, in which case
    the source simply has no item. *)
Theorem one_request_per_fetch (url sel : str) (base : option str) s :
  log (snd (fetch_html cfg url sel base s)) = log s ++ [EGet url] /\
  w (snd (fetch_html cfg url sel base s)) = snd (requests_get R url (w s)) /\
  log (snd (body_matches url s)) = log s ++ [EGet url] /\
  w (snd (body_matches url s)) = snd (requests_get R url (w s)) /\
  match feedparser R with
  | Some parse =>
    log (snd (fetch_rss cfg url s)) = log s ++ [EFeed url] /\
    w (snd (fetch_rss cfg url s)) = snd (parse url (w s))
  | None => fetch_rss cfg url s = (Ok [], s)
  end.
Proof.
  repeat split.
  - unfold fetch_html, bind, http_get, lift, ret, raise.
    destruct (requests_get R url (w s)) as [[r|e] w1]; [|reflexivity].
    destruct (r_ok r); [|reflexivity].
    destruct (soup_select R (r_text r) sel); [|reflexivity].
    destruct (anchor_items R _ _); reflexivity.
  - unfold fetch_html, bind, http_get, lift, ret, raise.
    destruct (requests_get R url (w s)) as [[r|e] w1]; [|reflexivity].
    destruct (r_ok r); [|reflexivity].
    destruct (soup_select R (r_text r) sel); [|reflexivity].
    destruct (anchor_items R _ _); reflexivity.
  - unfold body_matches, try_except, bind, http_get, lift, ret.
    destruct (requests_get R url (w s)) as [[r|e] w1]; [|reflexivity].
    destruct (r_ok r); [|reflexivity].
    destruct (soup_get_text R (r_text r)); reflexivity.
  - unfold body_matches, try_except, bind, http_get, lift, ret.
    destruct (requests_get R url (w s)) as [[r|e] w1]; [|reflexivity].
    destruct (r_ok r); [|reflexivity].
    destruct (soup_get_text R (r_text r)); reflexivity.
  - unfold fetch_rss, bind, ret. destruct (feedparser R) as [parse|]; [|reflexivity].
    destruct (parse url (w s)) as [[entries|e] w1]; split; reflexivity.
Qed.

Lemma anchor_items_raises root l e :
  anchor_items R root l = Raise e ->
  exists a, In a l /\ has_text_and_href a = true /\
            urljoin R root (default [] (a_href a)) = Raise e.
Proof.
  induction l as [|a l IH]; simpl; [discriminate|].
  destruct (has_text_and_href a) eqn:K; pose proof K as K';
    unfold has_text_and_href in K'.
  - apply andb_prop in K' as [K1 K2]. rewrite K1, K2. simpl.
    destruct (urljoin R root (default [] (a_href a))) as [u|e1] eqn:U.
    + destruct (anchor_items R root l) as [out|e2]; [discriminate|].
      intros [= ->]. destruct (IH eq_refl) as (a' & Hin & Ha).
      exists a'. split; [now right|exact Ha].
    + intros [= ->]. exists a. split; [now left|]. split; [exact K|exact U].
  - replace (negb (nonempty (a_text a)) || negb (nonempty (default [] (a_href a))))
      with true by (now rewrite <- negb_andb, K').
    intros A. destruct (IH A) as (a' & Hin & Ha).
    exists a'. split; [now right|]. exact Ha.
Qed.

(** X8.  The listing fetch fails loudly.  Whenever it raises, the
    exception is the one of the request, HTTPError for an error status,
    the one of the selection, or the one of [urljoin] on an anchor that
    has text and href: nothing is swallowed, and no partial list comes
    back. *)
Theorem fetch_html_raises (url sel : str) (base : option str) s (e : exn) :
  fst (fetch_html cfg url sel base s) = Raise e ->
  fst (requests_get R url (w s)) = Raise e \/
  exists r,
    fst (requests_get R url (w s)) = Ok r /\
    ((r_ok r = false /\ e = HTTPError) \/
     (r_ok r = true /\ soup_select R (r_text r) sel = Raise e) \/
     (r_ok r = true /\
      exists anchors a,
        soup_select R (r_text r) sel = Ok anchors /\
        In a (slice_to (MAX_ITEMS_PER_SOURCE cfg) anchors) /\
        has_text_and_href a = true /\
        urljoin R (or_str base url) (default [] (a_href a)) = Raise e)).
Proof.
  unfold fetch_html, bind, http_get, lift, ret, raise.
  destruct (requests_get R url (w s)) as [[r|e0] w1]; simpl;
    [|intros [= ->]; now left].
  intros E. right. exists r. split; [reflexivity|].
  destruct (r_ok r); [|injection E as <-; now left].
  right. destruct (soup_select R (r_text r) sel) as [anchors|e1].
  - right. split; [reflexivity|]. exists anchors.
    destruct (anchor_items R (or_str base url)
                (slice_to (MAX_ITEMS_PER_SOURCE cfg) anchors)) as [out|e2] eqn:A;
      [discriminate E|]. injection E as ->.
    destruct (anchor_items_raises _ _ _ A) as (a & Hin & Ha).
    exists a. split; [reflexivity|]. split; [exact Hin|exact Ha].
  - left. split; [reflexivity|]. simpl in E. now injection E as ->.
Qed.

Lemma slice_to_prefix {A} (n : Z) (xs : list A) :
  exists rest, xs = slice_to n xs ++ rest.
Proof.
  unfold slice_to. destruct (0 <=? n)%Z; eexists; symmetry; apply firstn_skipn.
Qed.

Lemma or_str_nonempty a b : b <> [] -> or_str a b <> [].
Proof. destruct a as [[|c r]|]; simpl; auto; discriminate. Qed.

(** X9.  When the feed parses, its entries give the items one for one
    and in order, from the first entry on and no more than the
    per-source maximum when that is not negative; an entry without
    link gets the url of the feed, so no item is without url, and every
    summary comes trimmed. *)
Theorem fetch_rss_items (url : str) s
  (parse : str -> world R -> result (list entry) * world R)
  (entries : list entry) (w' : world R) :
  feedparser R = Some parse -> parse url (w s) = (Ok entries, w') ->
  exists rest,
    entries = slice_to (MAX_ITEMS_PER_SOURCE cfg) entries ++ rest /\
    fst (fetch_rss cfg url s)
    = Ok (map (entry_item url) (slice_to (MAX_ITEMS_PER_SOURCE cfg) entries)) /\
    ((0 <= MAX_ITEMS_PER_SOURCE cfg)%Z ->
     (length (slice_to (MAX_ITEMS_PER_SOURCE cfg) entries)
      <= Z.to_nat (MAX_ITEMS_PER_SOURCE cfg))%nat) /\
    forall e, (url <> [] -> it_url (entry_item url e) <> []) /\
              strip (it_summary (entry_item url e)) = it_summary (entry_item url e).
Proof.
  intros Hf Hp. destruct (slice_to_prefix (MAX_ITEMS_PER_SOURCE cfg) entries)
    as (rest & E).
  exists rest. split; [exact E|]. split; [|split].
  - unfold fetch_rss, bind, ret. rewrite Hf, Hp. reflexivity.
  - apply slice_to_bound.
  - intros e. split.
    + apply or_str_nonempty.
    + apply strip_idem.
Qed.

Lemma resolved_titled root kept out :
  Forall (fun a => has_text_and_href a = true) kept ->
  Forall2 (resolved R root) kept out ->
  Forall (fun x => it_title x <> [] /\ it_summary x = []) out.
Proof.
  intros Hk H. induction H as [|a x kept out (Ht & Hs & _) _ IH]; [constructor|].
  inversion Hk as [|? ? Ha Hk']; subst. constructor; [|now apply IH].
  split; [|exact Hs]. rewrite Ht. unfold has_text_and_href in Ha.
  apply andb_prop in Ha as [Ha _]. now destruct (a_text a).
Qed.

(** X19.  Every item of a listing has a title, the text of its anchor,
    and an empty summary. *)
Theorem fetch_html_items_titled (url sel : str) (base : option str) s s'
  (items : list item) :
  fetch_html cfg url sel base s = (Ok items, s') ->
  Forall (fun x => it_title x <> [] /\ it_summary x = []) items.
Proof.
  unfold fetch_html, bind, http_get, lift, ret, raise. intros E.
  destruct (requests_get R url (w s)) as [[r|e] w1]; [|discriminate].
  destruct (r_ok r); [|discriminate].
  destruct (soup_select R (r_text r) sel) as [anchors|e]; [|discriminate].
  destruct (anchor_items R (or_str base url)
              (slice_to (MAX_ITEMS_PER_SOURCE cfg) anchors)) as [out|e] eqn:A;
    [|discriminate].
  injection E as <- _. apply anchor_items_spec in A.
  pose proof (resolved_no_summary _ _ _ _ A) as Hsum.
  rewrite uniq_first_occurrences by exact Hsum.
  assert (T : Forall (fun x => it_title x <> [] /\ it_summary x = []) out).
  { eapply resolved_titled; [|exact A]. apply List.Forall_forall.
    intros a Ha. now apply filter_In in Ha. }
  rewrite List.Forall_forall in *. intros x Hx. apply T.
  apply list_elem_of_In. eapply elem_of_sublist;
    [apply list_elem_of_In, Hx|apply first_occurrences_sublist].
Qed.

(** ** The item loop *)

(** X10.  A matching title settles it: an unseen item whose title
    matches a keyword becomes a hit on the spot, the page behind it is
    not requested, and world and log stay as they were. *)
Theorem title_match_needs_no_fetch (sent : gset str) (name : str) (it : item)
  (iid : str) s :
  make_id (it_title it) (it_url it) = Ok iid -> iid ∉ sent ->
  match_keywords R (it_title it) = true ->
  consider sent name it s
  = (Ok (Some {| h_id := iid; h_title := it_title it; h_url := it_url it;
                 h_src := name |}), s).
Proof.
  intros Hid Hnew Hm. unfold consider, bind, lift, ret. rewrite Hid.
  rewrite bool_decide_eq_false_2 by assumption. now rewrite Hm.
Qed.

Lemma consider_new_hit sent name it s h s' :
  consider sent name it s = (Ok (Some h), s') ->
  make_id (h_title h) (h_url h) = Ok (h_id h) /\ (h_id h ∉ sent) /\ h_src h = name.
Proof.
  unfold consider, bind, lift, ret.
  destruct (make_id (it_title it) (it_url it)) as [iid|e] eqn:Hid; [|discriminate].
  destruct (bool_decide (iid ∈ sent)) eqn:B; [discriminate|].
  apply bool_decide_eq_false_1 in B.
  destruct (match_keywords R (it_title it)).
  - intros [= <- _]. simpl. auto.
  - destruct (body_matches (it_url it) s) as [[[|]|e] s1]; try discriminate.
    intros [= <- _]. simpl. auto.
Qed.

Lemma scan_new_hits sent names name its : forall hits s r hits' s',
  In name names ->
  scan sent name its hits s = (r, hits', s') ->
  exists more, hits' = hits ++ more /\ Forall (new_hit sent names) more.
Proof.
  induction its as [|it its IH]; intros hits s r hits' s' Hn E; simpl in E.
  - injection E as _ <- _. exists []. split; [now rewrite app_nil_r|constructor].
  - destruct (consider sent name it s) as [[[h|]|e] s1] eqn:C.
    + destruct (IH _ _ _ _ _ Hn E) as (more & -> & Hm).
      exists (h :: more). split; [now rewrite <- app_assoc|].
      constructor; [|exact Hm].
      destruct (consider_new_hit _ _ _ _ _ _ C) as (H1 & H2 & H3).
      repeat split; auto. now rewrite H3.
    + exact (IH _ _ _ _ _ Hn E).
    + injection E as _ <- _. exists []. split; [now rewrite app_nil_r|constructor].
Qed.

Lemma new_hit_names sent names names' h :
  incl names names' -> new_hit sent names h -> new_hit sent names' h.
Proof. intros Hi (H1 & H2 & H3). repeat split; auto. Qed.

(** X11.  The polling loop only ever appends to the list of hits, and
    what it appends is new: each added hit carries the identity of its
    own title and url, that identity was not in the set loaded at
    start, and its source is one of the sources polled. *)
Theorem hits_are_new (sent : gset str) (srcs : list source) (hits : list hit) s :
  exists more,
    fst (poll_sources cfg sent srcs hits s) = hits ++ more /\
    Forall (new_hit sent (map s_name srcs)) more.
Proof.
  revert hits s. induction srcs as [|src srcs IH]; intros hits s; simpl.
  - exists []. split; [now rewrite app_nil_r|constructor].
  - assert (P : exists more, fst (poll_source cfg sent src hits s) = hits ++ more /\
                  Forall (new_hit sent (s_name src :: map s_name srcs)) more).
    { unfold poll_source.
      destruct (fetch_source cfg src s) as [[its|e] s1].
      - destruct (scan sent (s_name src) its hits s1) as [[r h2] s2] eqn:E.
        destruct (scan_new_hits sent (s_name src :: map s_name srcs) _ _ _ _ _ _ _
                    (or_introl eq_refl) E) as (more & -> & Hm).
        exists more. destruct r; auto.
      - exists []. split; [simpl; now rewrite app_nil_r|constructor]. }
    destruct P as (m1 & E1 & H1).
    destruct (poll_source cfg sent src hits s) as [h1 s1]. simpl in E1. subst h1.
    destruct (IH (hits ++ m1) s1) as (m2 & E2 & H2).
    exists (m1 ++ m2). rewrite E2, <- app_assoc. split; [reflexivity|].
    apply Forall_app. split; [exact H1|].
    eapply Forall_impl; [exact H2|]. intros h. apply new_hit_names.
    intros x Hx. now right.
Qed.

(** X12.  A source whose items have all been notified before costs its
    one fetch and nothing more: no page is requested, no hit is added,
    nothing is printed. *)
Theorem seen_source_costs_one_fetch (sent : gset str) (src : source)
  (its : list item) (hits : list hit) s s' :
  fetch_source cfg src s = (Ok its, s') -> Forall (seen sent) its ->
  poll_source cfg sent src hits s = (hits, s').
Proof.
  intros Hf Hs. unfold poll_source. rewrite Hf.
  now rewrite (scan_all_seen R sent (s_name src) its hits s' Hs).
Qed.

(** X13.  An item whose title or url cannot be encoded ends the turn of
    its source: the items before it have been dealt with and their
    hits stay, the items after it are not looked at. *)
Theorem bad_item_cuts_source (sent : gset str) (name : str)
  (before after : list item) (bad : item) (hits h1 : list hit) s s1 (e : exn) :
  make_id (it_title bad) (it_url bad) = Raise e ->
  scan sent name before hits s = (Ok tt, h1, s1) ->
  scan sent name (before ++ bad :: after) hits s = (Raise e, h1, s1).
Proof.
  intros Hbad. revert hits s.
  induction before as [|it before IH]; intros hits s E; simpl in *.
  - injection E as <- <-. unfold consider, bind, lift. now rewrite Hbad.
  - destruct (consider sent name it s) as [[[h|]|e0] s0]; auto. discriminate E.
Qed.

(** ** Pushing *)

Lemma lstrip_by_head p (t : str) c r : lstrip_by p t = c :: r -> p c = false.
Proof.
  induction t as [|x t IH]; simpl; [discriminate|].
  destruct (p x) eqn:Hx; [exact IH|]. now intros [= <- _].
Qed.

Lemma rstrip_by_last p (t x : str) :
  rstrip_by p t <> x ++ [0x2F] \/ p 0x2F = false.
Proof.
  destruct (p 0x2F) eqn:Hp; [left|now right]. intros E.
  unfold rstrip_by in E. apply (f_equal (@rev N)) in E.
  rewrite rev_involutive, rev_app_distr in E. simpl in E.
  apply lstrip_by_head in E. congruence.
Qed.

Lemma forallb_eqb_repeat ch b :
  forallb (N.eqb ch) b = true -> b = repeat ch (length b).
Proof.
  induction b as [|c b IH]; simpl; [reflexivity|].
  intros H. apply andb_prop in H as [Hc Hb]. apply N.eqb_eq in Hc as <-.
  now rewrite <- IH.
Qed.

(** X14.  [send_push] never raises.  Without a topic it only prints
    its notice, and a body that cannot be encoded is reported as a
    failed push; in both cases no request is made. *)
Theorem send_push_never_raises (title body : str) s :
  fst (send_push cfg title body s) = Ok tt /\
  (or_str (NTFY_TOPIC cfg) [] = [] ->
   snd (send_push cfg title body s) = emit (EPrint SkipNoTopic) s) /\
  (or_str (NTFY_TOPIC cfg) [] <> [] -> encode_utf8 body = None ->
   snd (send_push cfg title body s)
   = emit (EPrint (PushFailed UnicodeEncodeError)) s).
Proof.
  unfold send_push. destruct (NTFY_TOPIC cfg) as [[|c t]|]; simpl.
  - repeat split; auto. intros H. now contradiction H.
  - unfold try_except, bind, lift, http_post, print.
    destruct (encode_utf8 body) as [data|].
    + destruct (requests_post R _ data title (w s)) as [[u|e] w1].
      * destruct u. repeat split; try discriminate.
      * repeat split; discriminate.
    + repeat split; auto. discriminate.
  - repeat split; auto. intros H. now contradiction H.
Qed.

(** X15.  With a topic, a body that can be encoded is posted once, as
    its UTF-8 bytes and under the given title, to the base url, one
    "/" and the topic, the base url having lost the slashes at its
    end; a failure of the request is printed and goes no further. *)
Theorem send_push_posts_once (title body : str) (c : N) (t : str)
  (data : bytes) s :
  NTFY_TOPIC cfg = Some (c :: t) -> encode_utf8 body = Some data ->
  exists base k,
    NTFY_URL cfg = base ++ repeat 0x2F k /\
    (forall x, base <> x ++ [0x2F]) /\
    let url := base ++ lit "/" ++ c :: t in
    w (snd (send_push cfg title body s))
    = snd (requests_post R url data title (w s)) /\
    log (snd (send_push cfg title body s))
    = log s ++ EPost url title data ::
        match fst (requests_post R url data title (w s)) with
        | Ok _ => []
        | Raise e => [EPrint (PushFailed e)]
        end.
Proof.
  intros Ht Hb.
  destruct (rstrip_by_prefix (N.eqb 0x2F) (NTFY_URL cfg)) as (b & Hall & E).
  exists (rstrip_by (N.eqb 0x2F) (NTFY_URL cfg)), (length b).
  split; [now rewrite <- forallb_eqb_repeat|]. split.
  - intros x. destruct (rstrip_by_last (N.eqb 0x2F) (NTFY_URL cfg) x); [auto|discriminate].
  - unfold send_push, try_except, bind, lift, http_post, print, rstrip_char.
    rewrite Ht, Hb. cbv zeta.
    destruct (requests_post R _ data title (w s)) as [[u|e] w1]; simpl;
      split; try reflexivity. now rewrite <- app_assoc.
Qed.

Lemma push_all_ok ns : forall s, fst (push_all cfg ns s) = Ok tt.
Proof.
  induction ns as [|[title ch] ns IH]; intros s; simpl; [reflexivity|].
  unfold bind. pose proof (send_push_never_raises title ch s) as [H _].
  destruct (send_push cfg title ch s) as [[u|e] s1]; [apply IH|discriminate H].
Qed.

(** X16.  A failed push does not stop the next: with a topic set and
    bodies that can be encoded, every notification is posted, once and
    in order, whatever became of the ones before it, and the whole
    never raises. *)
Theorem push_all_posts_each (ns : list (str * str)) (c : N) (t : str) s :
  NTFY_TOPIC cfg = Some (c :: t) ->
  Forall (fun n => encode_utf8 (snd n) <> None) ns ->
  fst (push_all cfg ns s) = Ok tt /\
  exists evs,
    log (snd (push_all cfg ns s)) = log s ++ evs /\
    post_titles evs = map fst ns.
Proof.
  intros Ht Hns. split; [apply push_all_ok|].
  revert s. induction Hns as [|[title ch] ns Hn _ IH]; intros s; simpl.
  - exists []. now rewrite app_nil_r.
  - unfold bind. pose proof (send_push_never_raises title ch s) as [H _].
    simpl in Hn. destruct (encode_utf8 ch) as [data|] eqn:Hd; [|contradiction].
    destruct (send_push_posts_once title ch c t data s Ht Hd)
      as (base & k & _ & _ & _ & L).
    destruct (send_push cfg title ch s) as [[u|e] s1]; [|discriminate H].
    simpl in L. destruct (IH s1) as (evs & E & P).
    eexists. rewrite E, L, <- app_assoc. split; [reflexivity|].
    unfold post_titles in *. rewrite flat_map_app, P.
    destruct (fst (requests_post R _ data title (w s))); reflexivity.
Qed.

(** ** The run and its state file *)

(** X17.  As the script stands, no run ever pushes a notification or
    writes the state file: the file is left as found and the log gains
    polling events only.  A run that ends normally has found no hit;
    and a run that finds no hit ends normally when there is no state
    file, or when the file holds an object of the shape of [state]. *)
Theorem main_never_commits (fs : fsys) s :
  state_file (files (main cfg fs s)) = state_file fs /\
  polled s (final (main cfg fs s)) /\
  (status (main cfg fs s) = Ok tt -> found (main cfg fs s) = []) /\
  (found (main cfg fs s) = [] ->
   state_file fs = None \/ (exists d, state_file fs = Some (Json d)) ->
   status (main cfg fs s) = Ok tt).
Proof.
  unfold main, main_with.
  destruct (load_state fs) as [[state0|e] fs1] eqn:L;
    pose proof (load_state_file _ _ _ L) as F.
  - destruct (poll_sources cfg _ SOURCES [] s) as [hits s1] eqn:P.
    pose proof (polled_poll_sources _ _ _ _ _ _ _ _ P) as Q.
    destruct hits as [|h hits].
    + cbn [status found files final]. split; [exact F|]. split.
      * eapply polled_trans; [exact Q|]. now apply polled_emit.
      * split; auto.
    + rewrite render_all_positional by discriminate.
      cbn [status found files final]. split; [exact F|]. split; [exact Q|].
      split; discriminate.
  - assert (U : state_file fs = Some Unreadable).
    { unfold load_state in L. simpl in L.
      destruct (state_file fs) as [[|d]|]; [reflexivity|discriminate L..]. }
    cbn [status found files final]. split; [exact F|]. split; [apply polled_refl|].
    split; [discriminate|]. intros _ [H|[d H]]; rewrite U in H; discriminate H.
Qed.

(** X18.  A state file that cannot be parsed is fatal at once: the run
    raises before a single source is polled, world and log untouched. *)
Theorem damaged_state_is_fatal (fs : fsys) s :
  state_file fs = Some Unreadable ->
  status (main cfg fs s) = Raise JSONDecodeError /\
  found (main cfg fs s) = [] /\ final (main cfg fs s) = s /\
  state_file (files (main cfg fs s)) = Some Unreadable.
Proof.
  intros H. unfold main, main_with, load_state. simpl. rewrite H.
  cbn [status found files final state_file]. auto.
Qed.

End More.

(** ** The further properties on the sample runtime *)

Lemma bare_first_title_at_1500_witness :
  (1 < length (notifications (lit "2026-11-04") body_1500))%nat /\
  hd [] (map fst (notifications (lit "2026-11-04") body_1500))
  = lit "2026-11-04" ++ lit " 세법/공지 업데이트".
Proof.
  assert (H : (1 < length (notifications (lit "2026-11-04") body_1500))%nat)
    by (vm_compute; apply le_n).
  split; [exact H|].
  exact (proj2 (bare_first_title_at_1500 (lit "2026-11-04") body_1500 H) eq_refl).
Defined.

Lemma id_bytes_injective_witness :
  id_text (lit "a|b") (lit "c") = id_text (lit "a") (lit "b|c").
Proof.
  apply (id_bytes_injective (lit "a|b") (lit "c") (lit "a") (lit "b|c")
           (octets "a|b|c")); reflexivity.
Defined.

Lemma fetch_html_raises_witness :
  let url := lit "https://www.nts.go.kr/gone" in
  fst (fetch_html demo_cfg url (lit "a") None demo_s0)
  = Raise (LibraryError (lit "ConnectionError")) /\
  fst (requests_get demo url (w demo_s0)) = Raise (LibraryError (lit "ConnectionError")).
Proof.
  intros url.
  assert (H : fst (fetch_html demo_cfg url (lit "a") None demo_s0)
              = Raise (LibraryError (lit "ConnectionError")))
    by (vm_compute; reflexivity).
  split; [exact H|].
  destruct (fetch_html_raises demo demo_cfg url (lit "a") None demo_s0 _ H)
    as [G|(r & G & _)]; [exact G|].
  exfalso. vm_compute in G. discriminate G.
Defined.

Lemma fetch_rss_items_witness :
  fst (fetch_rss demo_cfg feed_url demo_s0)
  = Ok (map (entry_item feed_url)
          (slice_to (MAX_ITEMS_PER_SOURCE demo_cfg) demo_entries)).
Proof.
  destruct (fetch_rss_items demo demo_cfg feed_url demo_s0 _ demo_entries 1%nat
              eq_refl ltac:(vm_compute; reflexivity)) as (rest & _ & H & _).
  exact H.
Defined.

Lemma fetch_html_items_titled_witness :
  Forall (fun x => it_title x <> [] /\ it_summary x = []) listing_items.
Proof.
  apply (fetch_html_items_titled demo demo_cfg listing_url (lit "div.bbsList li a")
           (Some (lit "https://www.nts.go.kr")) demo_s0
           (Build_st demo 1%nat [EGet listing_url])).
  vm_compute. reflexivity.
Defined.

Lemma title_match_needs_no_fetch_witness :
  consider (∅ : gset str) (s_name rss_source) tax_item demo_s0
  = (Ok (Some tax_hit), demo_s0).
Proof.
  assert (H1 : make_id (it_title tax_item) (it_url tax_item) = Ok tax_id)
    by (vm_compute; reflexivity).
  assert (H3 : match_keywords demo (it_title tax_item) = true)
    by (vm_compute; reflexivity).
  exact (title_match_needs_no_fetch demo ∅ (s_name rss_source) tax_item tax_id
           demo_s0 H1 (not_elem_of_empty _) H3).
Defined.

Lemma seen_source_costs_one_fetch_witness :
  poll_source demo_cfg feed_seen rss_source [] demo_s0
  = ([], Build_st demo 1%nat [EFeed feed_url]).
Proof.
  assert (H1 : fetch_source demo_cfg rss_source demo_s0
               = (Ok feed_items, Build_st demo 1%nat [EFeed feed_url]))
    by (vm_compute; reflexivity).
  assert (H2 : Forall (seen feed_seen) feed_items).
  { apply List.Forall_forall. intros it Hin.
    exists (id_of (it_title it) (it_url it)). split.
    - destruct Hin as [<-|[<-|[]]]; vm_compute; reflexivity.
    - apply elem_of_list_to_set, list_elem_of_In.
      apply (in_map (fun it => id_of (it_title it) (it_url it))). exact Hin. }
  exact (seen_source_costs_one_fetch demo demo_cfg feed_seen rss_source
           feed_items [] demo_s0 _ H1 H2).
Defined.

Lemma bad_item_cuts_source_witness :
  scan (∅ : gset str) (s_name rss_source) ([tax_item] ++ bad_item :: feed_items)
    [] demo_s0
  = (Raise UnicodeEncodeError, [tax_hit], demo_s0).
Proof.
  assert (H1 : make_id (it_title bad_item) (it_url bad_item) = Raise UnicodeEncodeError)
    by (vm_compute; reflexivity).
  assert (H2 : scan (∅ : gset str) (s_name rss_source) [tax_item] [] demo_s0
               = (Ok tt, [tax_hit], demo_s0)) by (vm_compute; reflexivity).
  exact (bad_item_cuts_source demo ∅ (s_name rss_source) [tax_item] feed_items
           bad_item [] [tax_hit] demo_s0 demo_s0 UnicodeEncodeError H1 H2).
Defined.

Lemma send_push_posts_once_witness :
  exists base k,
    NTFY_URL demo_cfg = base ++ repeat 0x2F k /\ (forall x, base <> x ++ [0x2F]) /\
    log (snd (send_push demo_cfg (lit "제목") (lit "세법") demo_s0))
    = [EPost (base ++ lit "/" ++ lit "tax") (lit "제목") (octets "세법");
       EPrint (PushFailed (LibraryError (lit "Timeout")))].
Proof.
  destruct (send_push_posts_once demo demo_cfg (lit "제목") (lit "세법")
              0x74 (lit "ax") (octets "세법") demo_s0 eq_refl
              ltac:(vm_compute; reflexivity)) as (base & k & E & Hb & _ & L).
  exists base, k. split; [exact E|]. split; [exact Hb|]. exact L.
Defined.

Lemma push_all_posts_each_witness :
  fst (push_all demo_cfg two_notes demo_s0) = Ok tt /\
  exists evs,
    log (snd (push_all demo_cfg two_notes demo_s0)) = log demo_s0 ++ evs /\
    post_titles evs = map fst two_notes.
Proof.
  apply (push_all_posts_each demo demo_cfg two_notes 0x74 (lit "ax") demo_s0 eq_refl).
  repeat constructor; discriminate.
Defined.

Lemma main_never_commits_witness :
  found (main demo_cfg fs_seen demo_s0) = [] /\
  status (main demo_cfg fs_seen demo_s0) = Ok tt /\
  state_file (files (main demo_cfg fs_seen demo_s0)) = state_file fs_seen.
Proof.
  assert (F : found (main demo_cfg fs_seen demo_s0) = [])
    by (vm_compute; reflexivity).
  destruct (main_never_commits demo demo_cfg fs_seen demo_s0) as (K & _ & _ & S).
  split; [exact F|]. split; [|exact K].
  apply (S F). right. eexists. reflexivity.
Defined.

Lemma damaged_state_is_fatal_witness :
  status (main demo_cfg fs_damaged demo_s0) = Raise JSONDecodeError /\
  final (main demo_cfg fs_damaged demo_s0) = demo_s0.
Proof.
  destruct (damaged_state_is_fatal demo demo_cfg fs_damaged demo_s0 eq_refl)
    as (H1 & _ & H2 & _).
  split; [exact H1|exact H2].
Defined.
